(** * rng.py: four pseudo-random generators and their Analyzer

    A shallow embedding of [src/rng.py].  Python integers are [Z], Python
    strings are [list ascii], dictionaries with string keys are
    [gmap string Z], sets of integers are [gset Z], and every method that
    mutates [self] returns the updated object next to its result.  The
    iterator protocol is made explicit: [__next__] returns an [outcome],
    which is a yielded value, [StopIteration], or another exception. *)

From Stdlib Require Import ZArith Ascii String List QArith_base.
From stdpp Require Import gmap strings list fin_maps.

#[local] Open Scope Z_scope.

(** ** Python values, exceptions and results *)

(** The exceptions the module raises itself carry their message; the ones
    raised by the interpreter ([IndexError], [KeyError],
    [ZeroDivisionError], [OverflowError]) do not. *)
Inductive exn : Type :=
| TypeError (msg : string)
| ValueError (msg : string)
| IndexError
| KeyError (key : string)
| ZeroDivisionError
| OverflowError.

(** Result of one call of [__next__]. *)
Inductive outcome (A : Type) : Type :=
| Yield (a : A)
| StopIteration
| Raise (e : exn).
Arguments Yield {A} a.
Arguments StopIteration {A}.
Arguments Raise {A} e.

(** What a generator hands to the Analyzer: three generators return an
    [int], Acorn returns a [list]. *)
Inductive item : Type :=
| Scalar (n : Z)
| Vector (ns : list Z).

(** Untyped arguments, for the constructors that check types with
    [isinstance].  [PyInt] is an [int] proper: the two values of its
    subclass [bool], whose [str] is not a numeral, are not among the
    arguments considered. *)
#[warnings="-register-all"]
Inductive pyval : Type :=
| PyNone
| PyInt (n : Z)
| PyStr (s : list ascii)
| PyList (l : list pyval).

Definition isinstance_int (v : pyval) : bool :=
  match v with PyInt _ => true | _ => false end.

(** The integers of a list whose elements all passed [isinstance(_, int)];
    other elements are dropped (there are none after the check). *)
Definition ints_of (l : list pyval) : list Z :=
  omap (fun v => match v with PyInt n => Some n | _ => None end) l.

(** ** Integer and string primitives *)

(** [x % m]: Python's remainder has the sign of the divisor, as [Z.modulo]
    does, and raises for [m = 0]. *)
Definition py_mod (x m : Z) : exn + Z :=
  if decide (m = 0) then inl ZeroDivisionError else inr (x mod m).

(** [l[i]] with Python's negative indices. *)
Definition py_index {A} (l : list A) (i : Z) : exn + A :=
  let i' := if i <? 0 then i + Z.of_nat (length l) else i in
  if i' <? 0 then inl IndexError
  else match l !! Z.to_nat i' with
       | Some x => inr x
       | None => inl IndexError
       end.

(** [s[lo:hi]]: negative bounds count from the end, and both bounds are
    clamped to the string. *)
Definition py_slice {A} (s : list A) (lo hi : Z) : list A :=
  let len := Z.of_nat (length s) in
  let adj := fun i => if i <? 0 then Z.max 0 (i + len) else Z.min i len in
  take (Z.to_nat (adj hi - adj lo)) (drop (Z.to_nat (adj lo)) s).

Definition digit_to_ascii (d : Z) : ascii := ascii_of_N (48 + Z.to_N d).

Definition ascii_to_digit (c : ascii) : option Z :=
  let n := Z.of_N (N_of_ascii c) in
  if (48 <=? n) && (n <=? 57) then Some (n - 48) else None.

(** Decimal digits of [n >= 0], most significant first, put in front of
    [acc]; [fuel] bounds the number of digits. *)
Fixpoint str_digits (fuel : nat) (n : Z) (acc : list ascii) : list ascii :=
  match fuel with
  | O => acc
  | S fuel' =>
      let acc' := digit_to_ascii (n mod 10) :: acc in
      if n <? 10 then acc' else str_digits fuel' (n / 10) acc'
  end.

(** A number has no more decimal digits than binary ones. *)
Definition digits_fuel (n : Z) : nat := S (Z.to_nat (Z.log2 n)).

(** [str(z)] for an [int]. *)
Definition str (z : Z) : list ascii :=
  if z <? 0 then "-"%char :: str_digits (digits_fuel (- z)) (- z) []
  else str_digits (digits_fuel z) z [].

Fixpoint int_digits (s : list ascii) (acc : Z) : option Z :=
  match s with
  | [] => Some acc
  | c :: s' =>
      match ascii_to_digit c with
      | Some d => int_digits s' (10 * acc + d)
      | None => None
      end
  end.

(** [int(s)] for a string: an optional sign and at least one digit.
    (Python also accepts surrounding blanks and underscores between
    digits; no string of this program contains either.)  [None] is
    Python's [ValueError]. *)
Definition int_of_str (s : list ascii) : option Z :=
  match s with
  | [] => None
  | c :: s' =>
      if decide (c = "-"%char) then
        match s' with [] => None | _ => Z.opp <$> int_digits s' 0 end
      else if decide (c = "+"%char) then
        match s' with [] => None | _ => int_digits s' 0 end
      else int_digits s 0
  end.

(** [s.zfill(width)]: zeros go after a leading sign. *)
Definition zfill (s : list ascii) (width : Z) : list ascii :=
  let pad := replicate (Z.to_nat (width - Z.of_nat (length s))) "0"%char in
  match s with
  | c :: s' =>
      if decide (c = "-"%char ∨ c = "+"%char) then c :: pad ++ s'
      else pad ++ s
  | [] => pad
  end.

Fixpoint bin_digits (p : positive) : list ascii :=
  match p with
  | xH => ["1"%char]
  | xO p' => bin_digits p' ++ ["0"%char]
  | xI p' => bin_digits p' ++ ["1"%char]
  end.

(** [bin(z)] *)
Definition bin (z : Z) : list ascii :=
  match z with
  | Z0 => ["0"; "b"; "0"]%char
  | Zpos p => ["0"; "b"]%char ++ bin_digits p
  | Zneg p => ["-"; "0"; "b"]%char ++ bin_digits p
  end.

(** [int.bit_length()]: the number of bits of [|z|], and [0] for [0]. *)
Definition bit_length (z : Z) : Z :=
  if decide (z = 0) then 0 else Z.log2 (Z.abs z) + 1.

(** ** True division

    [a / b] on two integers is the binary64 number nearest to the exact
    quotient, ties going to the even mantissa, and [OverflowError] when
    that number would be [2^1024] or more.  The result is kept as the
    rational it stands for. *)

(** [a / b] rounded to the nearest integer, ties to even, for [a >= 0]
    and [b > 0]. *)
Definition round_half_even (a b : Z) : Z :=
  let q := a / b in
  let r := a mod b in
  if 2 * r <? b then q
  else if b <? 2 * r then q + 1
  else if Z.even q then q else q + 1.

(** The binary64 number nearest to [n / d] for [n, d > 0], as a mantissa
    [m <= 2^53] and an exponent [s], standing for [m * 2^s].  [e] is the
    exponent of the quotient, [2^e <= n / d < 2^(e+1)]; below [2^-1022]
    the numbers are 2^-1074 apart. *)
Definition nearest_binary64 (n d : Z) : Z * Z :=
  let e0 := Z.log2 n - Z.log2 d in
  let above := if 0 <=? e0 then d * 2 ^ e0 <=? n
               else d <=? n * 2 ^ (- e0) in
  let e := if above then e0 else e0 - 1 in
  let s := Z.max e (-1022) - 52 in
  let m := if 0 <=? s then round_half_even n (d * 2 ^ s)
           else round_half_even (n * 2 ^ (- s)) d in
  (m, s).

Definition true_div (a b : Z) : exn + Q :=
  if decide (b = 0) then inl ZeroDivisionError
  else if decide (a = 0) then inr (Qmake 0 1)
  else
    let '(m, s) := nearest_binary64 (Z.abs a) (Z.abs b) in
    if (0 <=? s) && (2 ^ 1024 <=? m * 2 ^ s) then inl OverflowError
    else
      let sign := Z.sgn a * Z.sgn b in
      inr (if 0 <=? s then Qmake (sign * m * 2 ^ s) 1
           else Qmake (sign * m) (Z.to_pos (2 ^ (- s)))).

(** ** The sequence capability

    The Analyzer only iterates over its generator and asks whether it is
    an [Acorn]; both are the methods of this class. *)
Class Iterator (G : Type) : Type := {
  next : G → G * outcome item;
  isinstance_Acorn : bool
}.
Arguments isinstance_Acorn G {_}.

(** ** class MiddleSquare

    [__state] is the dictionary itself: [set_state] stores the one it is
    given, with whatever other keys it has, and [get_state] returns a
    copy. *)
Module MiddleSquare.

Record t : Type := {
  seed : Z;
  __state : gmap string Z;       (* keys "val" and "ndigits" *)
  seen_numbers : gset Z
}.

Definition __init__ (seed : pyval) : exn + t :=
  match seed with
  | PyInt seed =>
      let str_seed := str seed in
      if decide (Z.of_nat (length str_seed) mod 2 ≠ 0) then
        inl (ValueError "Seed must have an even number of digits")
      else
        match int_of_str str_seed with
        | None => inl (ValueError "invalid literal for int()")
        | Some seed' =>
            inr {| seed := seed';
                   __state := <["val"%string := seed']>
                                ({["ndigits"%string :=
                                     Z.of_nat (length (str seed'))]});
                   seen_numbers := ∅ |}
        end
  | _ => inl (TypeError "Seed must be an integer")
  end.

Definition with_state (self : t) (state : gmap string Z) : t :=
  {| seed := seed self; __state := state;
     seen_numbers := seen_numbers self |}.

(** The dictionary is updated in place, so the squared value and then the
    extracted value are stored before the membership test: an advance
    that stops has already replaced ["val"]. *)
Definition __next__ (self : t) : t * outcome item :=
  let state := __state self in
  match state !! "val"%string with
  | None => (self, Raise (KeyError "val"))
  | Some v =>
      let state := <["val"%string := v ^ 2]> state in
      match state !! "ndigits"%string with
      | None => (with_state self state, Raise (KeyError "ndigits"))
      | Some n =>
          let str_val := zfill (str (v ^ 2)) (2 * n) in
          match int_of_str (py_slice str_val (n / 2) (3 * n / 2)) with
          | None =>
              (with_state self state,
               Raise (ValueError "invalid literal for int()"))
          | Some v' =>
              let state := <["val"%string := v']> state in
              if decide (v' ∈ seen_numbers self) then
                (with_state self state, StopIteration)
              else
                ({| seed := seed self; __state := state;
                    seen_numbers := {[v']} ∪ seen_numbers self |},
                 Yield (Scalar v'))
          end
      end
  end.

(** [self.__state.copy()] *)
Definition get_state (self : t) : gmap string Z := __state self.

Definition set_state (self : t) (state : gmap string Z) : t * option exn :=
  if decide (is_Some (state !! "ndigits"%string)
             ∧ is_Some (state !! "val"%string))
  then (with_state self state, None)
  else (self, Some (ValueError "Invalid dictionary")).

End MiddleSquare.

#[export] Instance MiddleSquare_Iterator : Iterator MiddleSquare.t :=
  {| next := MiddleSquare.__next__; isinstance_Acorn := false |}.

(** ** class LinearCongruential *)
Module LinearCongruential.

Record t : Type := {
  seed : Z;
  __a : Z;
  __c : Z;
  __m : Z;
  __value : Z;
  __state : gmap string Z;       (* written by the constructor only *)
  __seen_numbers : gset Z
}.

Definition __init__ (seed a c m : Z) : t :=
  {| seed := seed; __a := a; __c := c; __m := m; __value := seed;
     __state := <["val"%string := seed]> (<["a"%string := a]>
                  (<["c"%string := c]> ({["m"%string := m]})));
     __seen_numbers := ∅ |}.

Definition __next__ (self : t) : t * outcome item :=
  if decide (__value self ∈ __seen_numbers self) then (self, StopIteration)
  else
    let seen := {[__value self]} ∪ __seen_numbers self in
    match py_mod (__a self * __value self + __c self) (__m self) with
    | inl e =>
        ({| seed := seed self; __a := __a self; __c := __c self;
            __m := __m self; __value := __value self;
            __state := __state self; __seen_numbers := seen |},
         Raise e)
    | inr v =>
        ({| seed := seed self; __a := __a self; __c := __c self;
            __m := __m self; __value := v;
            __state := __state self; __seen_numbers := seen |},
         Yield (Scalar v))
    end.

Definition get_state (self : t) : gmap string Z :=
  <["val"%string := __value self]> (<["a"%string := __a self]>
    (<["c"%string := __c self]> ({["m"%string := __m self]}))).

(** The four assignments run in order; a missing key raises [KeyError]
    after the earlier ones have been done. *)
Definition set_state (self : t) (state : gmap string Z) : t * option exn :=
  match state !! "a"%string with
  | None => (self, Some (KeyError "a"))
  | Some a =>
      let self := {| seed := seed self; __a := a; __c := __c self;
                     __m := __m self; __value := __value self;
                     __state := __state self;
                     __seen_numbers := __seen_numbers self |} in
      match state !! "c"%string with
      | None => (self, Some (KeyError "c"))
      | Some c =>
          let self := {| seed := seed self; __a := __a self; __c := c;
                         __m := __m self; __value := __value self;
                         __state := __state self;
                         __seen_numbers := __seen_numbers self |} in
          match state !! "m"%string with
          | None => (self, Some (KeyError "m"))
          | Some m =>
              let self := {| seed := seed self; __a := __a self;
                             __c := __c self; __m := m;
                             __value := __value self;
                             __state := __state self;
                             __seen_numbers := __seen_numbers self |} in
              match state !! "val"%string with
              | None => (self, Some (KeyError "val"))
              | Some v =>
                  ({| seed := seed self; __a := __a self; __c := __c self;
                      __m := __m self; __value := v;
                      __state := __state self; __seen_numbers := ∅ |},
                   None)
              end
          end
      end
  end.

End LinearCongruential.

#[export] Instance LinearCongruential_Iterator :
  Iterator LinearCongruential.t :=
  {| next := LinearCongruential.__next__; isinstance_Acorn := false |}.

(** ** class LaggedFibonacci

    The window [state["val"]] is the list object that was passed as the
    seed and is changed in place; [__value] is a copy made by the
    constructor.  The lags [j] and [k] are taken as integers, which the
    constructor uses them as without a check. *)
Module LaggedFibonacci.

(** The state dictionary; ["val"] is the window. *)
Record state_dict : Type := { val : list Z; j : Z; k : Z; m : Z }.

Record t : Type := {
  __state : state_dict;
  __value : list Z               (* seed.copy() *)
}.

Definition __init__ (seed : pyval) (j k : Z) (m : pyval) : exn + t :=
  match seed with
  | PyList items =>
      if negb (forallb isinstance_int items) then
        inl (TypeError "All elements in the seed must be integers.")
      else
        match m with
        | PyInt m =>
            let seed := ints_of items in
            if decide (0 < j ∧ j < k ∧ k ≤ Z.of_nat (length seed)) then
              inr {| __state := {| val := seed; j := j; k := k; m := m |};
                     __value := seed |}
            else inl (ValueError "Invalid values for j, k, or seed length.")
        | _ => inl (ValueError "Param M must be an integer")
        end
  | _ => inl (TypeError "Seed must be a list of integers.")
  end.

(** The window is appended to and popped before the comparison with the
    initial seed. *)
Definition __next__ (self : t) : t * outcome item :=
  let state := val (__state self) in
  let j := j (__state self) in
  let k := k (__state self) in
  let m := m (__state self) in
  match py_index state (- k) with
  | inl e => (self, Raise e)
  | inr x =>
      match py_index state (- j) with
      | inl e => (self, Raise e)
      | inr y =>
          match py_mod (x + y) m with
          | inl e => (self, Raise e)
          | inr next_number =>
              let state := drop 1 (state ++ [next_number]) in
              let self := {| __state := {| val := state; j := j; k := k;
                                           m := m |};
                             __value := __value self |} in
              if decide (state = __value self) then (self, StopIteration)
              else (self, Yield (Scalar next_number))
          end
      end
  end.

Definition get_state (self : t) : state_dict := __state self.

(** [isinstance(state, dict)] holds of every [state_dict]. *)
Definition set_state (self : t) (state : state_dict) : t * option exn :=
  ({| __state := state; __value := __value self |}, None).

End LaggedFibonacci.

#[export] Instance LaggedFibonacci_Iterator : Iterator LaggedFibonacci.t :=
  {| next := LaggedFibonacci.__next__; isinstance_Acorn := false |}.

(** ** class Acorn

    [seed] and the first [state["vals"]] are one list object, but no
    method changes a list in place: [__next__] builds a new list and
    rebinds [state["vals"]], so [seed] keeps the value it was given. *)
Module Acorn.

Record state_dict : Type := { vals : list Z; M : Z }.

Record t : Type := {
  state : state_dict;
  seed : list Z;
  seen_numbers : list (list Z)
}.

Definition __init__ (seed : pyval) (M : pyval) : exn + t :=
  match seed with
  | PyList items =>
      if negb (forallb isinstance_int items) then
        inl (TypeError "Seed must be a list of integers")
      else
        match M with
        | PyInt M =>
            let seed := ints_of items in
            match py_index seed 0 with
            | inl e => inl e
            | inr s0 =>
                if decide (M ≤ s0) then
                  inl (ValueError "First element of seed must be less than M")
                else
                  inr {| state := {| vals := seed; M := M |};
                         seed := seed;
                         seen_numbers := [seed] |}
            end
        | _ => inl (ValueError "M must be an integer.")
        end
  | _ => inl (TypeError "Seed must be a list")
  end.

(** The body of [for i in range(1, len(state["vals"]))], over the indices
    still to visit. *)
Fixpoint fill (vals : list Z) (M : Z) (range : list nat)
    (new_vals : list Z) : exn + list Z :=
  match range with
  | [] => inr new_vals
  | i :: range' =>
      match py_index new_vals (Z.of_nat i - 1) with
      | inl e => inl e
      | inr a =>
          match py_index vals (Z.of_nat i) with
          | inl e => inl e
          | inr b =>
              match py_mod (a + b) M with
              | inl e => inl e
              | inr x => fill vals M range' (new_vals ++ [x])
              end
          end
      end
  end.

(** The new vector is compared with the seed before it is stored. *)
Definition __next__ (self : t) : t * outcome item :=
  let st := state self in
  match py_index (vals st) 0 with
  | inl e => (self, Raise e)
  | inr v0 =>
      match fill (vals st) (M st) (seq 1 (length (vals st) - 1)) [v0] with
      | inl e => (self, Raise e)
      | inr new_vals =>
          if decide (new_vals = seed self) then (self, StopIteration)
          else
            ({| state := {| vals := new_vals; M := M st |};
                seed := seed self;
                seen_numbers := seen_numbers self |},
             Yield (Vector new_vals))
      end
  end.

Definition get_state (self : t) : state_dict := state self.

(** The argument of [set_state] is any dictionary: either key may be
    missing. *)
Record state_arg : Type := {
  arg_vals : option (list Z);
  arg_M : option Z
}.

Definition set_state (self : t) (st : state_arg) : t * option exn :=
  match arg_vals st, arg_M st with
  | Some vs, Some M' =>
      ({| state := {| vals := vs; M := M' |}; seed := seed self;
          seen_numbers := seen_numbers self |}, None)
  | _, _ =>
      (self,
       Some (ValueError "Invalid state format. Must include 'vals' and 'M'."))
  end.

End Acorn.

#[export] Instance Acorn_Iterator : Iterator Acorn.t :=
  {| next := Acorn.__next__; isinstance_Acorn := true |}.

(** ** class Analyzer *)
Module Analyzer.

Record t (G : Type) : Type := {
  rand_num_gen : G;
  max : option Z;
  min : option Z;
  average : Q;                   (* the value of the float *)
  period : Z;
  bit_freqs : list Z
}.
Arguments rand_num_gen {G} _.
Arguments max {G} _.
Arguments min {G} _.
Arguments average {G} _.
Arguments period {G} _.
Arguments bit_freqs {G} _.

Definition __init__ {G} (rand_num_gen : G) : t G :=
  {| rand_num_gen := rand_num_gen; max := None; min := None;
     average := Qmake 0 1; period := 0; bit_freqs := [] |}.

(** The local variables of [analyze].  [samples] is not in the source: it
    records, in order, every [num] the inner loop has handled, so that
    statements can speak of the samples processed. *)
Record locals : Type := {
  total : Z;
  count : Z;
  seen_numbers : gset Z;
  samples : list Z
}.

Definition max_nums_default : Z := 100000.     (* 1e5 *)

(** [for i in range(bit_length): if num & (1 << i): bit_freqs[i] += 1],
    over the indices still to visit. *)
Fixpoint count_bits (num : Z) (range : list nat) (bit_freqs : list Z)
    : list Z * option exn :=
  match range with
  | [] => (bit_freqs, None)
  | i :: range' =>
      if decide (Z.land num (Z.shiftl 1 (Z.of_nat i)) ≠ 0) then
        match bit_freqs !! i with
        | Some n => count_bits num range' (<[i := n + 1]> bit_freqs)
        | None => (bit_freqs, Some IndexError)
        end
      else count_bits num range' bit_freqs
  end.

Section analyze.
Context {G : Type} `{!Iterator G}.

(** The body of [for num in numbers]. *)
Definition visit (self : t G) (l : locals) (num : Z)
    : t G * locals * option exn :=
  let min' := match min self with
              | None => num
              | Some mn => if num <? mn then num else mn
              end in
  let max' := match max self with
              | None => num
              | Some mx => if num >? mx then num else mx
              end in
  let total' := total l + num in
  let bit_length := Z.of_nat (length (bin max')) - 2 in
  let len := Z.of_nat (length (bit_freqs self)) in
  let extended :=
    if len <? bit_length then
      bit_freqs self ++ replicate (Z.to_nat (bit_length - len)) 0
    else bit_freqs self in
  let '(freqs, raised) :=
    count_bits num (seq 0 (Z.to_nat bit_length)) extended in
  let self' := {| rand_num_gen := rand_num_gen self; max := Some max';
                  min := Some min'; average := average self;
                  period := period self; bit_freqs := freqs |} in
  match raised with
  | Some e =>
      (self', {| total := total'; count := count l;
                 seen_numbers := seen_numbers l; samples := samples l |},
       Some e)
  | None =>
      (self', {| total := total'; count := count l + 1;
                 seen_numbers := {[num]} ∪ seen_numbers l;
                 samples := samples l ++ [num] |},
       None)
  end.

Fixpoint visit_all (self : t G) (l : locals) (numbers : list Z)
    : t G * locals * option exn :=
  match numbers with
  | [] => (self, l, None)
  | num :: numbers' =>
      match visit self l num with
      | (self', l', Some e) => (self', l', Some e)
      | (self', l', None) => visit_all self' l' numbers'
      end
  end.

(** [for num_list in self.rand_num_gen]: the generator is advanced first,
    then the bound is tested, once for each item.  [fuel] bounds the
    number of advances; [None] means it ran out. *)
Fixpoint iterate (fuel : nat) (max_nums : Z) (g : G) (self : t G)
    (l : locals) : option (G * t G * locals * option exn) :=
  match fuel with
  | O => None
  | S fuel' =>
      match next g with
      | (g', StopIteration) => Some (g', self, l, None)
      | (g', Raise e) => Some (g', self, l, Some e)
      | (g', Yield num_list) =>
          if decide (max_nums ≤ count l) then Some (g', self, l, None)
          else
            let numbers := match num_list with
                           | Vector ns => ns
                           | Scalar n => [n]
                           end in
            match visit_all self l numbers with
            | (self', l', Some e) => Some (g', self', l', Some e)
            | (self', l', None) => iterate fuel' max_nums g' self' l'
            end
      end
  end.

(** How a call of [analyze] ends.  [Returned] also gives the final values
    of the local variables. *)
Inductive run : Type :=
| Returned (self : t G) (l : locals)
| Raised (self : t G) (e : exn)
| Diverged.

(** An item that is handled adds at least one sample unless it is an
    empty list, so [max_nums + 1] advances are enough for a generator
    that yields no empty list.  The average is computed before the
    period: when the division overflows, the period is not assigned. *)
Definition analyze (self : t G) (max_nums : Z) : run :=
  let l0 := {| total := 0; count := 0; seen_numbers := ∅; samples := [] |} in
  match iterate (S (Z.to_nat max_nums)) max_nums (rand_num_gen self)
          self l0 with
  | None => Diverged
  | Some (g, self, l, Some e) =>
      Raised {| rand_num_gen := g; max := max self; min := min self;
                average := average self; period := period self;
                bit_freqs := bit_freqs self |} e
  | Some (g, self, l, None) =>
      match (if count l >? 0 then true_div (total l) (count l)
             else inr (Qmake 0 1)) with
      | inl e =>
          Raised {| rand_num_gen := g; max := max self; min := min self;
                    average := average self; period := period self;
                    bit_freqs := bit_freqs self |} e
      | inr average =>
          let period := if isinstance_Acorn G
                        then Z.of_nat (size (seen_numbers l))
                        else count l in
          Returned {| rand_num_gen := g; max := max self; min := min self;
                      average := average; period := period;
                      bit_freqs := bit_freqs self |} l
      end
  end.

End analyze.
End Analyzer.

(** ** Consuming a generator

    [drain fuel g] is [list(g)] cut after [fuel] advances: the yielded
    items, how the iteration ended, and the generator afterwards. *)
Inductive ending : Type :=
| Exhausted
| Crashed (e : exn)
| Unfinished.

Fixpoint drain {G} `{!Iterator G} (fuel : nat) (g : G)
    : list item * ending * G :=
  match fuel with
  | O => ([], Unfinished, g)
  | S fuel' =>
      match next g with
      | (g', StopIteration) => ([], Exhausted, g')
      | (g', Raise e) => ([], Crashed e, g')
      | (g', Yield x) =>
          let '(xs, e, g'') := drain fuel' g' in (x :: xs, e, g'')
      end
  end.

(** The scalars of a yielded item, as the Analyzer flattens them. *)
Definition scalars (x : item) : list Z :=
  match x with Scalar n => [n] | Vector ns => ns end.

Definition yielded {A} (o : outcome A) : list A :=
  match o with Yield a => [a] | _ => [] end.

(** ** Histories of instances *)

Definition is_digit (c : ascii) : Prop := is_Some (ascii_to_digit c).

(** A state dictionary as [MiddleSquare.get_state] exports it from a
    constructed instance: an even, positive digit count and a value that
    fits in that many characters. *)
Definition ms_exported (d : gmap string Z) : Prop :=
  ∃ v n, d !! "val"%string = Some v ∧ d !! "ndigits"%string = Some n
         ∧ 0 < n ∧ n mod 2 = 0 ∧ Z.abs v < 10 ^ n.

(** [ms_history g h]: the instance [g] has been constructed, then advanced
    and restored any number of times, and [h] lists the values it has
    yielded so far, oldest first. *)
Inductive ms_history : MiddleSquare.t → list Z → Prop :=
| ms_constructed seed g :
    MiddleSquare.__init__ seed = inr g → ms_history g []
| ms_advanced g h g' o :
    ms_history g h → MiddleSquare.__next__ g = (g', o) →
    ms_history g' (h ++ (yielded o ≫= scalars))
| ms_restored g h d g' :
    ms_history g h → ms_exported d →
    MiddleSquare.set_state g d = (g', None) → ms_history g' h.

(** [lcg_history g h]: the instance [g] has been constructed, then
    advanced and restored any number of times, and [h] lists the values
    that were current at the advances made since the construction or the
    last restore: the seed (or restored value) and every value yielded
    since, except the one that is current now. *)
Inductive lcg_history : LinearCongruential.t → list Z → Prop :=
| lcg_constructed seed a c m :
    lcg_history (LinearCongruential.__init__ seed a c m) []
| lcg_advanced g h g' o :
    lcg_history g h → LinearCongruential.__next__ g = (g', o) →
    o ≠ StopIteration →
    lcg_history g' (h ++ [LinearCongruential.__value g])
| lcg_stopped g h g' :
    lcg_history g h →
    LinearCongruential.__next__ g = (g', StopIteration) →
    lcg_history g' h
| lcg_restored g h d g' :
    lcg_history g h → LinearCongruential.set_state g d = (g', None) →
    lcg_history g' [].

(** ** Invariants of the analysis loop *)

(** The counters describe the samples handled so far. *)
Definition counted (l : Analyzer.locals) : Prop :=
  Analyzer.count l = Z.of_nat (length (Analyzer.samples l))
  ∧ Analyzer.seen_numbers l = list_to_set (Analyzer.samples l).

(** No entry of the table exceeds the number of samples. *)
Definition tallied {G} (self : Analyzer.t G) (l : Analyzer.locals) : Prop :=
  0 ≤ Analyzer.count l
  ∧ Forall (λ x, 0 ≤ x ≤ Analyzer.count l) (Analyzer.bit_freqs self).

(** [max] is the largest sample, and as long as no sample is negative the
    table has as many entries as [bin(max)] has digits. *)
Definition sized {G} (self : Analyzer.t G) (l : Analyzer.locals) : Prop :=
  (Analyzer.samples l = [] →
   Analyzer.max self = None ∧ Analyzer.bit_freqs self = [])
  ∧ (Analyzer.samples l ≠ [] →
     ∃ mx, Analyzer.max self = Some mx
           ∧ mx ∈ Analyzer.samples l
           ∧ Forall (λ x, x ≤ mx) (Analyzer.samples l)
           ∧ (Forall (λ x, 0 ≤ x) (Analyzer.samples l) →
              Z.of_nat (length (Analyzer.bit_freqs self))
              = Z.of_nat (length (bin mx)) - 2)).

(** A generator that never yields an empty list. *)
Definition productive (G : Type) `{!Iterator G} : Prop :=
  ∀ (g g' : G) ns, next g = (g', Yield (Vector ns)) → ns ≠ [].

(** * Properties *)

(** ** Decimal strings *)

Lemma ascii_digit_inv d :
  0 ≤ d < 10 → ascii_to_digit (digit_to_ascii d) = Some d.
Proof.
  intros Hd.
  assert (d = 0 ∨ d = 1 ∨ d = 2 ∨ d = 3 ∨ d = 4 ∨ d = 5 ∨ d = 6 ∨ d = 7
          ∨ d = 8 ∨ d = 9) as Hcases by lia.
  repeat (destruct Hcases as [-> | Hcases]; [reflexivity |]).
  by subst.
Qed.

Lemma ascii_to_digit_range c d : ascii_to_digit c = Some d → 0 ≤ d < 10.
Proof.
  unfold ascii_to_digit. intros H.
  destruct (_ && _) eqn:E; [|done].
  apply andb_true_iff in E as [E1 E2]. simplify_eq. lia.
Qed.

Lemma is_digit_not_sign c : is_digit c → c ≠ "-"%char ∧ c ≠ "+"%char.
Proof. intros [d Hd]. split; intros ->; discriminate. Qed.

Lemma int_digits_app s1 s2 a :
  int_digits (s1 ++ s2) a = int_digits s1 a ≫= int_digits s2.
Proof.
  revert a. induction s1 as [|c s1 IH]; intros a; simpl; [done|].
  destruct (ascii_to_digit c); [apply IH | done].
Qed.

(** A string of digits denotes a number below [10 ^ length]. *)
Lemma int_digits_value s :
  Forall is_digit s →
  ∃ w, 0 ≤ w < 10 ^ Z.of_nat (length s)
       ∧ ∀ a, int_digits s a = Some (a * 10 ^ Z.of_nat (length s) + w).
Proof.
  induction 1 as [|c s [d Hd] _ (w & Hw & IH)].
  - exists 0. split; [simpl; lia|]. intros a. simpl. f_equal. lia.
  - pose proof (ascii_to_digit_range _ _ Hd) as Hr.
    exists (d * 10 ^ Z.of_nat (length s) + w).
    rewrite length_cons, Nat2Z.inj_succ, Z.pow_succ_r by lia.
    split; [nia|]. intros a. simpl. rewrite Hd, IH. f_equal. ring.
Qed.

Lemma str_digits_acc fuel n acc :
  str_digits fuel n acc = str_digits fuel n [] ++ acc.
Proof.
  revert n acc. induction fuel as [|fuel IH]; intros n acc; simpl; [done|].
  destruct (n <? 10); [done|].
  rewrite IH, (IH _ [_]). by rewrite <- app_assoc.
Qed.

Lemma str_digits_digits fuel n :
  0 ≤ n → Forall is_digit (str_digits fuel n []).
Proof.
  revert n. induction fuel as [|fuel IH]; intros n Hn; simpl; [constructor|].
  assert (is_digit (digit_to_ascii (n mod 10))) as Hd.
  { exists (n mod 10). apply ascii_digit_inv, Z.mod_pos_bound. lia. }
  destruct (n <? 10); [by repeat constructor|].
  rewrite str_digits_acc. apply Forall_app. split.
  - apply IH. apply Z.div_pos; lia.
  - by repeat constructor.
Qed.

Lemma str_digits_length fuel n (k : nat) :
  0 ≤ n < 10 ^ Z.of_nat k → (0 < k)%nat →
  (length (str_digits fuel n []) ≤ k)%nat.
Proof.
  revert n k. induction fuel as [|fuel IH]; intros n k Hn Hk; simpl; [lia|].
  destruct (Z.ltb_spec n 10); [simpl; lia|].
  rewrite str_digits_acc, length_app. simpl.
  destruct k as [|[|k]]; [lia| simpl in Hn; lia |].
  assert (length (str_digits fuel (n / 10) []) ≤ S k)%nat; [|lia].
  apply IH; [|lia]. split; [apply Z.div_pos; lia|].
  apply Z.div_lt_upper_bound; [lia|].
  rewrite <- Z.pow_succ_r, <- Nat2Z.inj_succ by lia. lia.
Qed.

Lemma str_digits_nonempty fuel n acc : str_digits (S fuel) n acc ≠ [].
Proof.
  simpl. destruct (n <? 10); [done|].
  rewrite str_digits_acc. by destruct (str_digits _ _ []).
Qed.

Lemma int_str_digits fuel n :
  0 ≤ n < 10 ^ Z.of_nat fuel → int_digits (str_digits fuel n []) 0 = Some n.
Proof.
  revert n. induction fuel as [|fuel IH]; intros n Hn; simpl.
  - simpl in Hn. f_equal. lia.
  - assert (0 ≤ n mod 10 < 10) as Hm by (apply Z.mod_pos_bound; lia).
    destruct (Z.ltb_spec n 10).
    + simpl. rewrite ascii_digit_inv by done. f_equal.
      rewrite Z.mod_small; lia.
    + rewrite str_digits_acc, int_digits_app, IH; simpl.
      * rewrite ascii_digit_inv by done. f_equal.
        pose proof (Z.div_mod n 10). lia.
      * split; [apply Z.div_pos; lia|].
        apply Z.div_lt_upper_bound; [lia|].
        rewrite Nat2Z.inj_succ, Z.pow_succ_r in Hn; lia.
Qed.

Lemma digits_fuel_enough n : 0 ≤ n → n < 10 ^ Z.of_nat (digits_fuel n).
Proof.
  intros Hn. unfold digits_fuel.
  rewrite Nat2Z.inj_succ, Z2Nat.id by apply Z.log2_nonneg.
  destruct (decide (n = 0)) as [->|]; [simpl; lia|].
  pose proof (Z.log2_spec n ltac:(lia)) as [_ Hlt].
  eapply Z.lt_le_trans; [exact Hlt|].
  apply Z.pow_le_mono_l. lia.
Qed.

(** [int(str(z)) == z] *)
Lemma int_of_str_str z : int_of_str (str z) = Some z.
Proof.
  unfold str. destruct (Z.ltb_spec z 0).
  - unfold int_of_str. rewrite decide_True by done.
    pose proof (str_digits_nonempty (Z.to_nat (Z.log2 (- z))) (- z) []).
    fold (digits_fuel (- z)) in *.
    destruct (str_digits _ _ _) eqn:E; [done|]. rewrite <- E.
    rewrite int_str_digits by (split; [lia | apply digits_fuel_enough; lia]).
    simpl. f_equal. lia.
  - pose proof (str_digits_nonempty (Z.to_nat (Z.log2 z)) z []) as Hne.
    pose proof (str_digits_digits (digits_fuel z) z ltac:(lia)) as Hd.
    fold (digits_fuel z) in *.
    unfold int_of_str.
    destruct (str_digits _ _ _) as [|c s] eqn:E; [done|].
    apply Forall_cons in Hd as [Hc _].
    apply is_digit_not_sign in Hc as [? ?].
    rewrite !decide_False by done. rewrite <- E.
    apply int_str_digits. split; [lia | apply digits_fuel_enough; lia].
Qed.

Lemma str_nonneg x : 0 ≤ x → str x = str_digits (digits_fuel x) x [].
Proof. intros Hx. unfold str. by destruct (Z.ltb_spec x 0); [lia|]. Qed.

Lemma str_nonneg_digits x : 0 ≤ x → Forall is_digit (str x).
Proof. intros Hx. rewrite str_nonneg by done. by apply str_digits_digits. Qed.

Lemma str_nonempty z : str z ≠ [].
Proof.
  unfold str, digits_fuel. destruct (z <? 0); [done|].
  apply str_digits_nonempty.
Qed.

Lemma str_nonneg_length x (k : nat) :
  0 ≤ x < 10 ^ Z.of_nat k → (0 < k)%nat → (length (str x) ≤ k)%nat.
Proof.
  intros Hx Hk. rewrite str_nonneg by lia. by apply str_digits_length.
Qed.

(** A number fits in as many digits as its string has characters. *)
Lemma str_bound z : Z.abs z < 10 ^ Z.of_nat (length (str z)).
Proof.
  unfold str. destruct (Z.ltb_spec z 0) as [Hz|Hz].
  - pose proof (str_digits_digits (digits_fuel (- z)) (- z) ltac:(lia)) as Hd.
    apply int_digits_value in Hd as (w & Hw & Hv).
    specialize (Hv 0).
    rewrite int_str_digits in Hv
      by (split; [lia | apply digits_fuel_enough; lia]).
    rewrite length_cons, Nat2Z.inj_succ, Z.pow_succ_r by lia.
    simplify_eq. lia.
  - pose proof (str_digits_digits (digits_fuel z) z ltac:(lia)) as Hd.
    apply int_digits_value in Hd as (w & Hw & Hv).
    specialize (Hv 0).
    rewrite int_str_digits in Hv
      by (split; [lia | apply digits_fuel_enough; lia]).
    simplify_eq. lia.
Qed.

Lemma int_of_str_digits s :
  Forall is_digit s → s ≠ [] →
  ∃ w, int_of_str s = Some w ∧ 0 ≤ w < 10 ^ Z.of_nat (length s).
Proof.
  intros Hd Hne. destruct (int_digits_value s Hd) as (w & Hw & Hv).
  exists w. split; [|done].
  destruct s as [|c s]; [done|]. unfold int_of_str.
  apply Forall_cons in Hd as [Hc _].
  apply is_digit_not_sign in Hc as [? ?].
  rewrite !decide_False by done. rewrite Hv. f_equal; lia.
Qed.

Lemma zfill_digits s w :
  Forall is_digit s →
  zfill s w = replicate (Z.to_nat (w - Z.of_nat (length s))) "0"%char ++ s.
Proof.
  intros Hd. unfold zfill. destruct s as [|c s]; [by rewrite app_nil_r|].
  apply Forall_cons in Hd as [Hc _].
  apply is_digit_not_sign in Hc as [? ?].
  rewrite decide_False; [done | intros [?|?]; done].
Qed.

Lemma is_digit_zero : is_digit "0"%char.
Proof. by exists 0. Qed.

(** On a string of [2 * n] characters, with [n] even, the slice of
    [__next__] leaves out [n / 2] characters on either side. *)
Lemma py_slice_middle {A} (s : list A) n :
  0 < n → Z.of_nat (length s) = 2 * n →
  py_slice s (n / 2) (3 * n / 2)
  = take (Z.to_nat n) (drop (Z.to_nat (n / 2)) s).
Proof.
  intros Hn Hlen. unfold py_slice. rewrite Hlen.
  assert (0 ≤ n / 2) by (apply Z.div_pos; lia).
  assert (3 * n / 2 - n / 2 = n ∧ 3 * n / 2 ≤ 2 * n ∧ n / 2 ≤ 2 * n)
    as (Hd & ? & ?).
  { pose proof (Z.div_mod n 2 ltac:(lia)).
    pose proof (Z.mod_pos_bound n 2 ltac:(lia)).
    pose proof (Z.div_mod (3 * n) 2 ltac:(lia)).
    pose proof (Z.mod_pos_bound (3 * n) 2 ltac:(lia)). lia. }
  destruct (Z.ltb_spec (3 * n / 2) 0); [lia|].
  destruct (Z.ltb_spec (n / 2) 0); [lia|].
  rewrite !Z.min_l by lia. by rewrite Hd.
Qed.

(** ** MiddleSquare *)

(** One advance from a state whose value fits in [n] characters. *)
Lemma ms_next_fits g v n :
  MiddleSquare.__state g !! "val"%string = Some v →
  MiddleSquare.__state g !! "ndigits"%string = Some n →
  0 < n → Z.abs v < 10 ^ n →
  let padded := zfill (str (v ^ 2)) (2 * n) in
  let middle := take (Z.to_nat n) (drop (Z.to_nat (n / 2)) padded) in
  Z.of_nat (length padded) = 2 * n
  ∧ Z.of_nat (length middle) = n
  ∧ ∃ v', int_of_str middle = Some v' ∧ 0 ≤ v' < 10 ^ n
      ∧ MiddleSquare.__next__ g =
          if decide (v' ∈ MiddleSquare.seen_numbers g) then
            (MiddleSquare.with_state g
               (<["val"%string := v']> (MiddleSquare.__state g)),
             StopIteration)
          else
            ({| MiddleSquare.seed := MiddleSquare.seed g;
                MiddleSquare.__state :=
                  <["val"%string := v']> (MiddleSquare.__state g);
                MiddleSquare.seen_numbers :=
                  {[v']} ∪ MiddleSquare.seen_numbers g |},
             Yield (Scalar v')).
Proof.
  intros Hv Hn Hpos Hb padded middle.
  assert (0 ≤ v ^ 2 < 10 ^ (2 * n)) as Hsq.
  { replace (2 * n) with (n + n) by lia.
    rewrite Z.pow_add_r, Z.pow_2_r by lia.
    destruct (Z.abs_spec v) as [[? Ha]|[? Ha]]; rewrite Ha in Hb; nia. }
  pose proof (str_nonneg_digits (v ^ 2) ltac:(lia)) as Hdig.
  assert (length (str (v ^ 2)) ≤ Z.to_nat (2 * n))%nat as Hlen.
  { apply str_nonneg_length; [|lia]. rewrite Z2Nat.id; lia. }
  assert (padded = replicate (Z.to_nat (2 * n - Z.of_nat (length (str (v ^ 2)))))
                     "0"%char ++ str (v ^ 2)) as Hpad
    by (by apply zfill_digits).
  assert (Z.of_nat (length padded) = 2 * n) as Hplen.
  { rewrite Hpad, length_app, length_replicate. lia. }
  assert (Forall is_digit padded) as Hpdig.
  { rewrite Hpad. apply Forall_app. split; [|done].
    apply Forall_replicate, is_digit_zero. }
  assert (0 ≤ n / 2 ∧ n / 2 ≤ n) as [? ?].
  { split; [apply Z.div_pos; lia | apply Z.div_le_upper_bound; lia]. }
  assert (Z.of_nat (length middle) = n) as Hmlen.
  { unfold middle. rewrite length_take, length_drop. lia. }
  assert (Forall is_digit middle) as Hmdig
    by (by apply Forall_take, Forall_drop).
  destruct (int_of_str_digits middle Hmdig) as (v' & Hint & Hv').
  { intros E. rewrite E in Hmlen. simpl in Hmlen. lia. }
  rewrite Hmlen in Hv'.
  split; [done|]. split; [done|]. exists v'. split; [done|]. split; [done|].
  unfold MiddleSquare.__next__. cbv zeta.
  rewrite Hv, lookup_insert_ne, Hn by done.
  rewrite py_slice_middle by done. fold padded. fold middle. rewrite Hint.
  rewrite insert_insert_eq. reflexivity.
Qed.

(** What every reachable instance satisfies. *)
Lemma ms_history_inv g h :
  ms_history g h →
  ms_exported (MiddleSquare.__state g)
  ∧ MiddleSquare.seen_numbers g = list_to_set h.
Proof.
  induction 1 as [seed g Hinit | g h g' o _ [Hexp Hseen] Hnext
                  | g h d g' _ [_ Hseen] Hd Hset].
  - unfold MiddleSquare.__init__ in Hinit.
    destruct seed as [|s| |]; try done.
    destruct (decide _) as [|Heven]; [done|].
    rewrite int_of_str_str in Hinit. simplify_eq. simpl. split; [|done].
    exists s, (Z.of_nat (length (str s))).
    split; [by rewrite lookup_insert_eq|].
    split; [by rewrite lookup_insert_ne, lookup_singleton_eq|].
    pose proof (str_nonempty s) as Hne. pose proof (str_bound s).
    split; [destruct (str s); [done | simpl; lia]|].
    split; [|done].
    destruct (decide (Z.of_nat (length (str s)) mod 2 = 0)); [done|].
    by destruct Heven.
  - destruct Hexp as (v & n & Hv & Hn & Hpos & Heven & Hb).
    destruct (ms_next_fits g v n Hv Hn Hpos Hb) as (_ & _ & v' & _ & Hv' & E).
    rewrite E in Hnext.
    destruct (decide (v' ∈ MiddleSquare.seen_numbers g)); simplify_eq; simpl.
    + rewrite app_nil_r. split; [|done].
      exists v', n. rewrite lookup_insert_eq, lookup_insert_ne by done.
      repeat split; try done; lia.
    + split.
      * exists v', n. rewrite lookup_insert_eq, lookup_insert_ne by done.
        repeat split; try done; lia.
      * rewrite list_to_set_app_L, Hseen. simpl.
        rewrite (right_id_L ∅ (∪)). apply (comm_L (∪)).
  - unfold MiddleSquare.set_state in Hset.
    destruct (decide _); simplify_eq. by simpl.
Qed.

(** C3.  Every advance of a MiddleSquare instance (constructed, then
    advanced and restored from exported states any number of times, having
    yielded the values [h]) squares the current value, pads the decimal
    string of the square with zeros to exactly [2 * ndigits] characters,
    and takes the [ndigits] characters in the middle as an integer: that is
    the new current value.  The advance signals exhaustion exactly when
    this value is among all the values yielded before, and otherwise yields
    it and records it. *)
Theorem ms_next_spec g h :
  ms_history g h →
  ∃ v n v',
    MiddleSquare.__state g !! "val"%string = Some v
    ∧ MiddleSquare.__state g !! "ndigits"%string = Some n
    ∧ 0 < n ∧ n mod 2 = 0
    ∧ let padded := zfill (str (v ^ 2)) (2 * n) in
      let middle := take (Z.to_nat n) (drop (Z.to_nat (n / 2)) padded) in
      Z.of_nat (length padded) = 2 * n
      ∧ py_slice padded (n / 2) (3 * n / 2) = middle
      ∧ Z.of_nat (length middle) = n
      ∧ int_of_str middle = Some v'
      ∧ MiddleSquare.__state (MiddleSquare.__next__ g).1
        = <["val"%string := v']> (MiddleSquare.__state g)
      ∧ (v' ∈ h →
         (MiddleSquare.__next__ g).2 = StopIteration
         ∧ MiddleSquare.seen_numbers (MiddleSquare.__next__ g).1
           = MiddleSquare.seen_numbers g)
      ∧ (v' ∉ h →
         (MiddleSquare.__next__ g).2 = Yield (Scalar v')
         ∧ MiddleSquare.seen_numbers (MiddleSquare.__next__ g).1
           = {[v']} ∪ MiddleSquare.seen_numbers g).
Proof.
  intros Hh. destruct (ms_history_inv g h Hh) as [Hexp Hseen].
  destruct Hexp as (v & n & Hv & Hn & Hpos & Heven & Hb).
  destruct (ms_next_fits g v n Hv Hn Hpos Hb) as (Hpl & Hml & v' & Hint & _ & E).
  exists v, n, v'. repeat (split; [done|]). cbv zeta.
  split; [by apply py_slice_middle|]. repeat (split; [done|]).
  rewrite E, Hseen.
  destruct (decide (v' ∈ list_to_set h)) as [Hin|Hin];
    rewrite elem_of_list_to_set in Hin; simpl; by repeat split.
Qed.

(** The instance of the driver, before its first advance. *)
Lemma ms_next_spec_witness :
  ∃ g, MiddleSquare.__init__ (PyInt 45725946) = inr g
       ∧ (MiddleSquare.__next__ g).2 = Yield (Scalar 86213759).
Proof.
  destruct (MiddleSquare.__init__ (PyInt 45725946)) as [e|g] eqn:Hinit;
    [vm_compute in Hinit; discriminate|].
  exists g. split; [done|].
  destruct (ms_next_spec g [] (ms_constructed _ g Hinit))
    as (v & n & v' & Hv & Hn & _ & _ & _ & _ & _ & Hint & _ & _ & Hy).
  vm_compute in Hinit. injection Hinit as <-.
  vm_compute in Hv, Hn. injection Hv as <-. injection Hn as <-.
  vm_compute in Hint. injection Hint as <-.
  apply Hy, not_elem_of_nil.
Defined.

(** ** LinearCongruential *)

Lemma lcg_next_stop g :
  LinearCongruential.__value g ∈ LinearCongruential.__seen_numbers g →
  LinearCongruential.__next__ g = (g, StopIteration).
Proof. intros Hin. unfold LinearCongruential.__next__. by rewrite decide_True. Qed.

Lemma lcg_next_yield g :
  LinearCongruential.__value g ∉ LinearCongruential.__seen_numbers g →
  LinearCongruential.__m g ≠ 0 →
  LinearCongruential.__next__ g =
    let v' := (LinearCongruential.__a g * LinearCongruential.__value g
               + LinearCongruential.__c g) mod LinearCongruential.__m g in
    ({| LinearCongruential.seed := LinearCongruential.seed g;
        LinearCongruential.__a := LinearCongruential.__a g;
        LinearCongruential.__c := LinearCongruential.__c g;
        LinearCongruential.__m := LinearCongruential.__m g;
        LinearCongruential.__value := v';
        LinearCongruential.__state := LinearCongruential.__state g;
        LinearCongruential.__seen_numbers :=
          {[LinearCongruential.__value g]}
          ∪ LinearCongruential.__seen_numbers g |},
     Yield (Scalar v')).
Proof.
  intros Hin Hm. unfold LinearCongruential.__next__, py_mod.
  by rewrite !decide_False.
Qed.

Lemma lcg_next_zero g :
  LinearCongruential.__value g ∉ LinearCongruential.__seen_numbers g →
  LinearCongruential.__m g = 0 →
  LinearCongruential.__next__ g =
    ({| LinearCongruential.seed := LinearCongruential.seed g;
        LinearCongruential.__a := LinearCongruential.__a g;
        LinearCongruential.__c := LinearCongruential.__c g;
        LinearCongruential.__m := LinearCongruential.__m g;
        LinearCongruential.__value := LinearCongruential.__value g;
        LinearCongruential.__state := LinearCongruential.__state g;
        LinearCongruential.__seen_numbers :=
          {[LinearCongruential.__value g]}
          ∪ LinearCongruential.__seen_numbers g |},
     Raise ZeroDivisionError).
Proof.
  intros Hin Hm. unfold LinearCongruential.__next__, py_mod.
  by rewrite decide_False, decide_True.
Qed.

(** The seen-set holds exactly the values of the history. *)
Lemma lcg_history_inv g h :
  lcg_history g h → LinearCongruential.__seen_numbers g = list_to_set h.
Proof.
  induction 1 as [seed a c m | g h g' o _ IH Hnext Ho | g h g' _ IH Hnext
                  | g h d g' _ _ Hset].
  - done.
  - destruct (decide (LinearCongruential.__value g
                      ∈ LinearCongruential.__seen_numbers g)) as [Hin|Hin].
    { rewrite lcg_next_stop in Hnext by done. by simplify_eq. }
    rewrite list_to_set_app_L, <- IH. simpl. rewrite (right_id_L ∅ (∪)).
    rewrite (comm_L (∪)).
    destruct (decide (LinearCongruential.__m g = 0)).
    + rewrite lcg_next_zero in Hnext by done. by simplify_eq.
    + rewrite lcg_next_yield in Hnext by done. cbv zeta in Hnext.
      by simplify_eq.
  - destruct (decide (LinearCongruential.__value g
                      ∈ LinearCongruential.__seen_numbers g)) as [Hin|Hin].
    { rewrite lcg_next_stop in Hnext by done. by simplify_eq. }
    unfold LinearCongruential.__next__ in Hnext.
    rewrite decide_False in Hnext by done.
    by destruct (py_mod _ _).
  - unfold LinearCongruential.set_state in Hset.
    repeat (destruct (d !! _); [|done]). by simplify_eq.
Qed.

(** C4.  Every advance of a LinearCongruential instance first tests the
    current value against the values [h] that were current at the earlier
    advances (the seed and every value produced before the current one)
    and signals exhaustion, changing nothing, if it is among them.
    Otherwise it records the current value, computes
    [(a * current + c) mod m], stores it as the current value and yields
    it.  (For [m = 0] the remainder is undefined and the advance raises
    [ZeroDivisionError] after recording the current value.) *)
Theorem lcg_next_spec g h :
  lcg_history g h →
  let v := LinearCongruential.__value g in
  let v' := (LinearCongruential.__a g * v + LinearCongruential.__c g)
            mod LinearCongruential.__m g in
  LinearCongruential.__seen_numbers g = list_to_set h
  ∧ (v ∈ h → LinearCongruential.__next__ g = (g, StopIteration))
  ∧ (v ∉ h → LinearCongruential.__m g ≠ 0 →
     LinearCongruential.__next__ g =
       ({| LinearCongruential.seed := LinearCongruential.seed g;
           LinearCongruential.__a := LinearCongruential.__a g;
           LinearCongruential.__c := LinearCongruential.__c g;
           LinearCongruential.__m := LinearCongruential.__m g;
           LinearCongruential.__value := v';
           LinearCongruential.__state := LinearCongruential.__state g;
           LinearCongruential.__seen_numbers :=
             {[v]} ∪ LinearCongruential.__seen_numbers g |},
        Yield (Scalar v')))
  ∧ (v ∉ h → LinearCongruential.__m g = 0 →
     (LinearCongruential.__next__ g).2 = Raise ZeroDivisionError).
Proof.
  intros Hh v v'. pose proof (lcg_history_inv g h Hh) as Hseen.
  split; [done|]. split; [|split].
  - intros Hin. apply lcg_next_stop. rewrite Hseen.
    by apply elem_of_list_to_set.
  - intros Hin Hm. apply lcg_next_yield; [|done].
    by rewrite Hseen, elem_of_list_to_set.
  - intros Hin Hm. rewrite lcg_next_zero; [done| |done].
    by rewrite Hseen, elem_of_list_to_set.
Qed.

(** The generator of the driver: its first advance yields
    [(455 * 36 + 9126) mod 879 = 15]. *)
Lemma lcg_next_spec_witness :
  (LinearCongruential.__next__
     (LinearCongruential.__init__ 36 455 9126 879)).2 = Yield (Scalar 15).
Proof.
  destruct (lcg_next_spec _ [] (lcg_constructed 36 455 9126 879))
    as (_ & _ & Hy & _).
  rewrite Hy; [reflexivity | apply not_elem_of_nil | done].
Defined.

Lemma drain_S {G} `{!Iterator G} fuel (g : G) :
  drain (S fuel) g =
    match next g with
    | (g', StopIteration) => ([], Exhausted, g')
    | (g', Raise e) => ([], Crashed e, g')
    | (g', Yield x) =>
        let '(xs, e, g'') := drain fuel g' in (x :: xs, e, g'')
    end.
Proof. reflexivity. Qed.

(** C7, as stated, fails: with [a = 1], [c = 0] and a seed outside
    [0 .. m - 1] the generator yields two values before it stops.  The
    seed 36 has two digits; with [m = 7] the values are 1 and 1. *)
Lemma lcg_unit_multiplier_counterexample :
  ¬ (∀ seed m fuel,
       Z.of_nat (length (str seed)) mod 2 = 0 → 0 < m →
       (length (drain fuel (LinearCongruential.__init__ seed 1 0 m)).1.1
        ≤ 1)%nat).
Proof.
  intros H. specialize (H 36 7 3%nat eq_refl eq_refl).
  vm_compute in H. lia.
Qed.

(** C7, amended.  With [a = 1], [c = 0] and [m > 0] the generator yields
    exactly one value, the seed itself, when [0 <= seed < m], and
    otherwise exactly two, both [seed mod m]; then it signals exhaustion.
    The number of digits of the seed plays no part. *)
Theorem lcg_unit_multiplier seed m fuel :
  0 < m → (3 ≤ fuel)%nat →
  (drain fuel (LinearCongruential.__init__ seed 1 0 m)).1
  = (if decide (0 ≤ seed < m) then [Scalar seed]
     else [Scalar (seed mod m); Scalar (seed mod m)],
     Exhausted).
Proof.
  intros Hm Hfuel.
  destruct fuel as [|[|[|fuel]]]; [lia..|].
  pose proof (Z.mod_pos_bound seed m Hm) as Hr.
  rewrite drain_S. simpl next.
  rewrite lcg_next_yield by (simpl; first [apply not_elem_of_empty | lia]).
  cbv zeta. simpl LinearCongruential.__a. simpl LinearCongruential.__c.
  simpl LinearCongruential.__m. simpl LinearCongruential.__value.
  simpl LinearCongruential.__seen_numbers. simpl LinearCongruential.__state.
  simpl LinearCongruential.seed.
  replace (1 * seed + 0) with seed by lia.
  rewrite drain_S. simpl next.
  destruct (decide (0 ≤ seed < m)) as [Hs|Hs].
  - rewrite lcg_next_stop; [by rewrite Z.mod_small|].
    simpl. rewrite Z.mod_small by done.
    apply elem_of_union. left. by apply elem_of_singleton.
  - assert (seed mod m ≠ seed) as Hne by lia.
    rewrite lcg_next_yield; [|simpl..]; [|
      rewrite elem_of_union, elem_of_singleton, elem_of_empty;
      by intros [?|[]] | lia].
    cbv zeta. simpl LinearCongruential.__a. simpl LinearCongruential.__c.
    simpl LinearCongruential.__m. simpl LinearCongruential.__value.
    simpl LinearCongruential.__seen_numbers.
    simpl LinearCongruential.__state. simpl LinearCongruential.seed.
    replace (1 * (seed mod m) + 0) with (seed mod m) by lia.
    rewrite Z.mod_mod by lia.
    rewrite drain_S. simpl next.
    rewrite lcg_next_stop; [done|]. simpl.
    apply elem_of_union. left. by apply elem_of_singleton.
Qed.

Lemma lcg_unit_multiplier_witness :
  (drain 3 (LinearCongruential.__init__ 36 1 0 7)).1
  = ([Scalar 1; Scalar 1], Exhausted)
  ∧ (drain 3 (LinearCongruential.__init__ 3 1 0 7)).1
    = ([Scalar 3], Exhausted).
Proof.
  split.
  - exact (lcg_unit_multiplier 36 7 3 ltac:(lia) ltac:(lia)).
  - exact (lcg_unit_multiplier 3 7 3 ltac:(lia) ltac:(lia)).
Defined.

(** ** Indexing *)

Lemma py_index_nat {A} (l : list A) (i : nat) x :
  l !! i = Some x → py_index l (Z.of_nat i) = inr x.
Proof.
  intros Hx. unfold py_index. cbv zeta.
  do 2 (destruct (Z.ltb_spec (Z.of_nat i) 0); [lia|]).
  by rewrite Nat2Z.id, Hx.
Qed.

Lemma py_index_from_end {A} (l : list A) k :
  0 < k ≤ Z.of_nat (length l) →
  ∃ x, py_index l (- k) = inr x
       ∧ l !! (length l - Z.to_nat k)%nat = Some x.
Proof.
  intros Hk. unfold py_index. cbv zeta.
  destruct (Z.ltb_spec (- k) 0); [|lia].
  destruct (Z.ltb_spec (- k + Z.of_nat (length l)) 0); [lia|].
  replace (Z.to_nat (- k + Z.of_nat (length l)))
    with (length l - Z.to_nat k)%nat by lia.
  destruct (lookup_lt_is_Some_2 l (length l - Z.to_nat k)%nat) as [x Hx];
    [lia|].
  exists x. by rewrite Hx.
Qed.

(** ** Acorn *)

(** The loop of [__next__] from index [start] on: it succeeds, keeps what
    was already filled in and appends one cumulative sum per index. *)
Lemma acorn_fill_spec vals M n : ∀ start new_vals,
  M ≠ 0 → (0 < start)%nat → length new_vals = start →
  (start + n ≤ length vals)%nat →
  ∃ out, Acorn.fill vals M (seq start n) new_vals = inr out
         ∧ length out = (start + n)%nat
         ∧ take start out = new_vals
         ∧ ∀ i, (start ≤ i < start + n)%nat →
             ∃ a b, out !! (i - 1)%nat = Some a ∧ vals !! i = Some b
                    ∧ out !! i = Some ((a + b) mod M).
Proof.
  induction n as [|n IH]; intros start new_vals HM Hstart Hlen Hbound.
  - exists new_vals. simpl. split; [done|]. split; [lia|].
    split; [by rewrite <- Hlen, firstn_all | intros i; lia].
  - destruct (lookup_lt_is_Some_2 new_vals (start - 1)%nat) as [a Ha]; [lia|].
    destruct (lookup_lt_is_Some_2 vals start) as [b Hb]; [lia|].
    simpl.
    replace (Z.of_nat start - 1) with (Z.of_nat (start - 1)) by lia.
    rewrite (py_index_nat _ _ _ Ha), (py_index_nat _ _ _ Hb).
    unfold py_mod. rewrite decide_False by done.
    destruct (IH (S start) (new_vals ++ [(a + b) mod M])) as
      (out & Hout & Hlo & Htake & Hrec);
      [done | lia | rewrite length_app; simpl; lia | lia |].
    exists out. split; [done|]. split; [lia|].
    assert (∀ i, (i < S start)%nat →
                 out !! i = (new_vals ++ [(a + b) mod M]) !! i) as Hpre.
    { intros i Hi. by rewrite <- Htake, lookup_take_lt. }
    split.
    + apply (f_equal (take start)) in Htake.
      rewrite take_take, take_app_length' in Htake by done.
      by rewrite Nat.min_l in Htake by lia.
    + intros i Hi. destruct (decide (i = start)) as [->|Hne].
      * exists a, b. split; [|split; [done|]].
        -- rewrite Hpre by lia. by apply lookup_app_l_Some.
        -- rewrite Hpre by lia.
           by rewrite lookup_app_r, Hlen, Nat.sub_diag by lia.
      * apply Hrec. lia.
Qed.

(** The vector that an advance computes. *)
Lemma acorn_next_vector g :
  Acorn.vals (Acorn.state g) ≠ [] → Acorn.M (Acorn.state g) ≠ 0 →
  let old := Acorn.vals (Acorn.state g) in
  let M := Acorn.M (Acorn.state g) in
  ∃ new,
    length new = length old
    ∧ new !! 0%nat = old !! 0%nat
    ∧ (∀ i, (1 ≤ i < length old)%nat →
         ∃ a b, new !! (i - 1)%nat = Some a ∧ old !! i = Some b
                ∧ new !! i = Some ((a + b) mod M))
    ∧ Acorn.__next__ g =
        if decide (new = Acorn.seed g) then (g, StopIteration)
        else ({| Acorn.state := {| Acorn.vals := new; Acorn.M := M |};
                 Acorn.seed := Acorn.seed g;
                 Acorn.seen_numbers := Acorn.seen_numbers g |},
              Yield (Vector new)).
Proof.
  intros Hne HM old M.
  destruct old as [|v0 rest] eqn:Hold; [done|].
  destruct (acorn_fill_spec old M (length old - 1) 1 [v0])
    as (new & Hfill & Hlen & Htake & Hrec); [done | lia | done | |].
  { rewrite Hold. simpl. lia. }
  assert (1 + (length old - 1) = length old)%nat as Hl
    by (rewrite Hold; simpl; lia).
  rewrite Hl in Hlen, Hrec.
  exists new. rewrite <- Hold. split; [done|]. split; [|split; [done|]].
  - rewrite Hold. simpl.
    destruct new as [|n0 new']; [by rewrite Hold in Hlen|].
    simpl in Htake. by simplify_eq.
  - unfold Acorn.__next__. cbv zeta. fold old. fold M.
    replace 0 with (Z.of_nat 0) by done.
    rewrite (py_index_nat old 0 v0) by (by rewrite Hold).
    by rewrite Hfill.
Qed.

(** C5.  Every advance of an Acorn instance (with a non-empty vector and
    a modulus other than zero) computes a fresh vector [new] from the
    stored one [old]: [new[0] = old[0]] and
    [new[i] = (new[i-1] + old[i]) mod M] for [i >= 1].  It signals
    exhaustion exactly when [new] equals the seed vector, leaving the
    state as it was, and otherwise stores and yields the whole of [new].
    For seed [1,5,6,4,4,5,8,9,4] and [M = 12356] the first vector yielded
    has element 0 equal to 1 and element 1 equal to 6. *)
Theorem acorn_next_spec :
  (∀ g,
     let old := Acorn.vals (Acorn.state g) in
     let M := Acorn.M (Acorn.state g) in
     old ≠ [] → M ≠ 0 →
     ∃ new,
       length new = length old
       ∧ new !! 0%nat = old !! 0%nat
       ∧ (∀ i, (1 ≤ i < length old)%nat →
            ∃ a b, new !! (i - 1)%nat = Some a ∧ old !! i = Some b
                   ∧ new !! i = Some ((a + b) mod M))
       ∧ (new = Acorn.seed g → Acorn.__next__ g = (g, StopIteration))
       ∧ (new ≠ Acorn.seed g →
          Acorn.__next__ g =
            ({| Acorn.state := {| Acorn.vals := new; Acorn.M := M |};
                Acorn.seed := Acorn.seed g;
                Acorn.seen_numbers := Acorn.seen_numbers g |},
             Yield (Vector new))))
  ∧ (∃ g g' v,
       Acorn.__init__ (PyList (PyInt <$> [1; 5; 6; 4; 4; 5; 8; 9; 4]))
         (PyInt 12356) = inr g
       ∧ Acorn.__next__ g = (g', Yield (Vector v))
       ∧ v !! 0%nat = Some 1 ∧ v !! 1%nat = Some 6).
Proof.
  split.
  - intros g old M Hne HM.
    destruct (acorn_next_vector g Hne HM) as (new & Hl & H0 & Hrec & E).
    exists new. repeat (split; [done|]). rewrite E. split; intros Hs.
    + by rewrite decide_True.
    + by rewrite decide_False.
  - do 3 eexists. split; [vm_compute; reflexivity|].
    split; [vm_compute; reflexivity|]. by split.
Qed.

(** The driver's instance: its first vector starts with 1 and 6. *)
Lemma acorn_next_spec_witness :
  let g := {| Acorn.state := {| Acorn.vals := [1; 5; 6; 4; 4; 5; 8; 9; 4];
                                Acorn.M := 12356 |};
              Acorn.seed := [1; 5; 6; 4; 4; 5; 8; 9; 4];
              Acorn.seen_numbers := [[1; 5; 6; 4; 4; 5; 8; 9; 4]] |} in
  ∃ new, new !! 0%nat = Some 1 ∧ new !! 1%nat = Some 6
         ∧ (Acorn.__next__ g).2 = Yield (Vector new).
Proof.
  intros g.
  destruct (proj1 acorn_next_spec g ltac:(done) ltac:(done))
    as (new & Hl & H0 & Hrec & _ & Hy).
  exists new. split; [exact H0|].
  destruct (Hrec 1%nat ltac:(simpl; lia)) as (a & b & Ha & Hb & H1).
  simpl in Ha, Hb. rewrite H0 in Ha. simpl in Ha.
  injection Ha as <-. injection Hb as <-.
  split; [exact H1|].
  rewrite Hy; [done|]. intros ->. discriminate H1.
Defined.

(** ** LaggedFibonacci *)

(** An advance that does not raise has slid the window, whatever it
    returns. *)
Lemma lf_next_slides l l' o :
  LaggedFibonacci.__next__ l = (l', o) → (∀ e, o ≠ Raise e) →
  let st := LaggedFibonacci.__state l in
  ∃ x y,
    py_index (LaggedFibonacci.val st) (- LaggedFibonacci.k st) = inr x
    ∧ py_index (LaggedFibonacci.val st) (- LaggedFibonacci.j st) = inr y
    ∧ LaggedFibonacci.m st ≠ 0
    ∧ LaggedFibonacci.val (LaggedFibonacci.__state l')
      = drop 1 (LaggedFibonacci.val st
                ++ [(x + y) mod LaggedFibonacci.m st])
    ∧ LaggedFibonacci.__value l' = LaggedFibonacci.__value l
    ∧ (o = StopIteration ↔
       LaggedFibonacci.val (LaggedFibonacci.__state l')
       = LaggedFibonacci.__value l).
Proof.
  intros Hnext Ho st. unfold LaggedFibonacci.__next__ in Hnext.
  cbv zeta in Hnext. fold st in Hnext.
  destruct (py_index _ (- LaggedFibonacci.k st)) as [e|x];
    [simplify_eq; by destruct (Ho e)|].
  destruct (py_index _ (- LaggedFibonacci.j st)) as [e|y];
    [simplify_eq; by destruct (Ho e)|].
  unfold py_mod in Hnext.
  destruct (decide (LaggedFibonacci.m st = 0)) as [|Hm];
    [simplify_eq; by destruct (Ho ZeroDivisionError)|].
  exists x, y. repeat (split; [done|]).
  destruct (decide _) as [Heq|Hneq]; simplify_eq; simpl; by repeat split.
Qed.

(** C10.  An Acorn advance that signals exhaustion returns the instance
    as it was: the new vector is not stored.  A LaggedFibonacci advance
    that signals exhaustion has already appended the new number to the
    window and dropped the oldest one; the stored window is the slid one
    (equal to the initial seed).  The last part exhibits such an advance,
    from the window [1, 0] to [0, 1]. *)
Theorem exhaustion_state_effects :
  (∀ a a', Acorn.__next__ a = (a', StopIteration) → a' = a)
  ∧ (∀ l l',
       LaggedFibonacci.__next__ l = (l', StopIteration) →
       let st := LaggedFibonacci.__state l in
       ∃ x y,
         py_index (LaggedFibonacci.val st) (- LaggedFibonacci.k st) = inr x
         ∧ py_index (LaggedFibonacci.val st) (- LaggedFibonacci.j st) = inr y
         ∧ LaggedFibonacci.val (LaggedFibonacci.__state l')
           = drop 1 (LaggedFibonacci.val st
                     ++ [(x + y) mod LaggedFibonacci.m st])
         ∧ LaggedFibonacci.val (LaggedFibonacci.__state l')
           = LaggedFibonacci.__value l)
  ∧ (∃ l0 l l',
       LaggedFibonacci.__init__ (PyList [PyInt 0; PyInt 1]) 1 2 (PyInt 2)
       = inr l0
       ∧ (drain 2 l0).1 = ([Scalar 1; Scalar 0], Unfinished)
       ∧ (drain 2 l0).2 = l
       ∧ LaggedFibonacci.__next__ l = (l', StopIteration)
       ∧ LaggedFibonacci.val (LaggedFibonacci.__state l) = [1; 0]
       ∧ LaggedFibonacci.val (LaggedFibonacci.__state l') = [0; 1]).
Proof.
  split; [|split].
  - intros a a' Hnext. unfold Acorn.__next__ in Hnext. cbv zeta in Hnext.
    destruct (py_index _ 0); [done|].
    destruct (Acorn.fill _ _ _ _); [done|].
    destruct (decide _); by simplify_eq.
  - intros l l' Hnext st.
    destruct (lf_next_slides l l' _ Hnext ltac:(done))
      as (x & y & Hx & Hy & _ & Hval & _ & Hstop).
    exists x, y. repeat (split; [done|]). by apply Hstop.
  - do 3 eexists. split; [vm_compute; reflexivity|].
    split; [vm_compute; reflexivity|].
    split; [vm_compute; reflexivity|].
    split; [vm_compute; reflexivity|]. by split.
Qed.

Lemma exhaustion_state_effects_witness :
  let a := {| Acorn.state := {| Acorn.vals := [1; 0]; Acorn.M := 2 |};
              Acorn.seed := [1; 1]; Acorn.seen_numbers := [[1; 1]] |} in
  let l := {| LaggedFibonacci.__state :=
                {| LaggedFibonacci.val := [1; 0]; LaggedFibonacci.j := 1;
                   LaggedFibonacci.k := 2; LaggedFibonacci.m := 2 |};
              LaggedFibonacci.__value := [0; 1] |} in
  Acorn.vals (Acorn.state (Acorn.__next__ a).1) = [1; 0]
  ∧ LaggedFibonacci.val
      (LaggedFibonacci.__state (LaggedFibonacci.__next__ l).1) = [0; 1].
Proof.
  intros a l. split.
  - rewrite (proj1 exhaustion_state_effects a (Acorn.__next__ a).1);
      [done | by vm_compute].
  - destruct (proj1 (proj2 exhaustion_state_effects) l
                (LaggedFibonacci.__next__ l).1 ltac:(by vm_compute))
      as (x & y & _ & _ & _ & Hv).
    exact Hv.
Defined.

(** ** State import *)

(** C8.  [MiddleSquare.set_state] accepts any dictionary that has the
    two keys, whatever its digit count, stores it as the new state and
    leaves the seen-set as it was; [LinearCongruential.set_state] replaces
    [a], [c], [m] and the current value and empties the seen-set. *)
Theorem set_state_asymmetry :
  (∀ g d,
     is_Some (d !! "ndigits"%string) → is_Some (d !! "val"%string) →
     MiddleSquare.set_state g d =
       ({| MiddleSquare.seed := MiddleSquare.seed g;
           MiddleSquare.__state := d;
           MiddleSquare.seen_numbers := MiddleSquare.seen_numbers g |},
        None))
  ∧ (∀ g d a c m v,
       d !! "a"%string = Some a → d !! "c"%string = Some c →
       d !! "m"%string = Some m → d !! "val"%string = Some v →
       LinearCongruential.set_state g d =
         ({| LinearCongruential.seed := LinearCongruential.seed g;
             LinearCongruential.__a := a;
             LinearCongruential.__c := c;
             LinearCongruential.__m := m;
             LinearCongruential.__value := v;
             LinearCongruential.__state := LinearCongruential.__state g;
             LinearCongruential.__seen_numbers := ∅ |},
          None)).
Proof.
  split.
  - intros g d Hn Hv. unfold MiddleSquare.set_state.
    by rewrite decide_True.
  - intros g d a c m v Ha Hc Hm Hv. unfold LinearCongruential.set_state.
    by rewrite Ha, Hc, Hm, Hv.
Qed.

(** A generator that has recorded a value keeps it through an import of
    a state with another digit count; the linear congruential one
    forgets. *)
Lemma set_state_asymmetry_witness :
  let ms := {| MiddleSquare.seed := 10;
               MiddleSquare.__state :=
                 <["val"%string := 10]> ({["ndigits"%string := 2]});
               MiddleSquare.seen_numbers := {[10]} |} in
  let lcg := (LinearCongruential.__next__
                (LinearCongruential.__init__ 36 455 9126 879)).1 in
  MiddleSquare.seen_numbers
    (MiddleSquare.set_state ms
       (<["val"%string := 1234]> ({["ndigits"%string := 4]}))).1 = {[10]}
  ∧ LinearCongruential.__seen_numbers
      (LinearCongruential.set_state lcg
         (LinearCongruential.get_state lcg)).1 = ∅.
Proof.
  intros ms lcg. split.
  - rewrite (proj1 set_state_asymmetry ms);
      [done | eexists; vm_compute; reflexivity..].
  - rewrite (proj2 set_state_asymmetry lcg _ 455 9126 879 15);
      [done | vm_compute; reflexivity..].
Defined.

(** ** Construction of LaggedFibonacci *)

Lemma forallb_isinstance_int items :
  forallb isinstance_int items = true ↔ ∃ ns, items = PyInt <$> ns.
Proof.
  split.
  - induction items as [|x items IH]; intros Hall; [by exists []|].
    simpl in Hall. apply andb_true_iff in Hall as [Hx Hall].
    destruct (IH Hall) as [ns ->]. destruct x as [|n| |]; try done.
    by exists (n :: ns).
  - intros [ns ->]. induction ns as [|n ns IH]; [done|]. by simpl.
Qed.

Lemma ints_of_fmap ns : ints_of (PyInt <$> ns) = ns.
Proof.
  unfold ints_of. induction ns as [|n ns IH]; [done|].
  simpl. f_equal. exact IH.
Qed.

(** C9.  The constructor of LaggedFibonacci checks everything at once:
    a seed that is not a list of integers gives [TypeError]; with a list
    of integers, a modulus that is not an integer or lags that violate
    [0 < j < k <= len(seed)] give [ValueError]; every other call returns
    an instance.  No check is left for later: the first advance of a
    constructed instance raises nothing, except [ZeroDivisionError] for
    the modulus 0, which the constructor does not test. *)
Theorem lf_init_spec seed j k m :
  let r := LaggedFibonacci.__init__ seed j k m in
  ((∀ ns, seed ≠ PyList (PyInt <$> ns)) → ∃ msg, r = inl (TypeError msg))
  ∧ (∀ ns,
       seed = PyList (PyInt <$> ns) →
       (∀ n, m ≠ PyInt n) ∨ ¬ (0 < j ∧ j < k ∧ k ≤ Z.of_nat (length ns)) →
       ∃ msg, r = inl (ValueError msg))
  ∧ (∀ ns n,
       seed = PyList (PyInt <$> ns) → m = PyInt n →
       0 < j ∧ j < k ∧ k ≤ Z.of_nat (length ns) →
       let g := {| LaggedFibonacci.__state :=
                     {| LaggedFibonacci.val := ns; LaggedFibonacci.j := j;
                        LaggedFibonacci.k := k; LaggedFibonacci.m := n |};
                   LaggedFibonacci.__value := ns |} in
       r = inr g
       ∧ ∀ e, (LaggedFibonacci.__next__ g).2 = Raise e →
              e = ZeroDivisionError ∧ n = 0).
Proof.
  intros r. subst r. split; [|split].
  - intros Hseed. destruct seed as [| | |items]; try by eexists.
    simpl. destruct (forallb isinstance_int items) eqn:Hall; [|by eexists].
    apply forallb_isinstance_int in Hall as [ns ->]. by destruct (Hseed ns).
  - intros ns -> Hbad. simpl.
    rewrite (proj2 (forallb_isinstance_int _)) by by exists ns.
    simpl. rewrite ints_of_fmap.
    destruct m as [|n| |]; try by eexists.
    destruct Hbad as [Hm|Hjk]; [by destruct (Hm n)|].
    rewrite decide_False by done. by eexists.
  - intros ns n -> -> Hjk g. simpl.
    rewrite (proj2 (forallb_isinstance_int _)) by by exists ns.
    simpl. rewrite ints_of_fmap, decide_True by done. split; [done|].
    intros e. unfold LaggedFibonacci.__next__. cbv zeta. simpl.
    destruct (py_index_from_end ns k ltac:(lia)) as (x & -> & _).
    destruct (py_index_from_end ns j ltac:(lia)) as (y & -> & _).
    unfold py_mod. destruct (decide (n = 0)) as [->|Hn].
    + simpl. intros ?. by simplify_eq.
    + by destruct (decide _).
Qed.

(** The generator of the driver is constructed, and a seed that is too
    short for [k] is refused at once. *)
Lemma lf_init_spec_witness :
  LaggedFibonacci.__init__ (PyList (PyInt <$> [1; 2; 3; 4; 6; 1; 4])) 1 6
    (PyInt 365)
  = inr {| LaggedFibonacci.__state :=
             {| LaggedFibonacci.val := [1; 2; 3; 4; 6; 1; 4];
                LaggedFibonacci.j := 1; LaggedFibonacci.k := 6;
                LaggedFibonacci.m := 365 |};
           LaggedFibonacci.__value := [1; 2; 3; 4; 6; 1; 4] |}
  ∧ (∃ msg, LaggedFibonacci.__init__ (PyList (PyInt <$> [1; 2])) 1 6
              (PyInt 365) = inl (ValueError msg))
  ∧ (∃ msg, LaggedFibonacci.__init__ (PyList [PyInt 1; PyNone]) 1 2
              (PyInt 365) = inl (TypeError msg)).
Proof.
  split; [|split].
  - apply (proj2 (proj2 (lf_init_spec
             (PyList (PyInt <$> [1; 2; 3; 4; 6; 1; 4])) 1 6 (PyInt 365)))
             [1; 2; 3; 4; 6; 1; 4] 365 eq_refl eq_refl).
    simpl. lia.
  - apply (proj1 (proj2 (lf_init_spec (PyList (PyInt <$> [1; 2])) 1 6
                           (PyInt 365))) [1; 2] eq_refl).
    right. simpl. lia.
  - apply (proj1 (lf_init_spec (PyList [PyInt 1; PyNone]) 1 2 (PyInt 365))).
    intros [|? [|? [|? ?]]]; discriminate.
Defined.

(** ** Binary strings *)

Lemma bin_digits_length p :
  Z.of_nat (length (bin_digits p)) = Z.log2 (Z.pos p) + 1.
Proof.
  induction p as [p IH|p IH|]; simpl bin_digits.
  - rewrite length_app, Nat2Z.inj_add, IH, Pos2Z.inj_xI.
    rewrite Z.log2_succ_double by lia. simpl. lia.
  - rewrite length_app, Nat2Z.inj_add, IH, Pos2Z.inj_xO.
    rewrite Z.log2_double by lia. simpl. lia.
  - reflexivity.
Qed.

(** What the Analyzer calls [bit_length]: for a value that is not
    negative it is [int.bit_length()], except that [0] counts one bit. *)
Lemma bin_length_nonneg z :
  0 ≤ z → Z.of_nat (length (bin z)) - 2 = Z.max 1 (bit_length z).
Proof.
  intros Hz. unfold bit_length. destruct z as [|p|p]; [done| |lia].
  rewrite decide_False by done. simpl bin.
  rewrite length_cons, length_cons, !Nat2Z.inj_succ, bin_digits_length.
  pose proof (Z.log2_nonneg (Z.pos p)).
  change (Z.abs (Z.pos p)) with (Z.pos p). lia.
Qed.

Lemma bin_length_pos z : 1 ≤ Z.of_nat (length (bin z)) - 2.
Proof.
  destruct z as [|p|p]; simpl bin; [simpl; lia| |];
    rewrite ?length_cons, !Nat2Z.inj_succ, bin_digits_length;
    pose proof (Z.log2_nonneg (Z.pos p)); lia.
Qed.

Lemma bit_length_mono x y : 0 ≤ x ≤ y → bit_length x ≤ bit_length y.
Proof.
  intros Hxy. unfold bit_length.
  destruct (decide (x = 0)), (decide (y = 0)); try lia.
  - pose proof (Z.log2_nonneg (Z.abs y)). lia.
  - rewrite !Z.abs_eq by lia.
    pose proof (Z.log2_le_mono x y). lia.
Qed.

(** ** Analyzer *)

(** The bit loop over [start .. start + n - 1] stays inside a table that
    is long enough, keeps its length, leaves the entries below [start]
    alone and adds at most one to each of the others. *)
Lemma count_bits_spec num n : ∀ start bf,
  (start + n ≤ length bf)%nat →
  ∃ bf', Analyzer.count_bits num (seq start n) bf = (bf', None)
         ∧ length bf' = length bf
         ∧ (∀ i, (i < start)%nat → bf' !! i = bf !! i)
         ∧ ∀ i x', bf' !! i = Some x' →
             ∃ x, bf !! i = Some x ∧ x ≤ x' ≤ x + 1.
Proof.
  induction n as [|n IH]; intros start bf Hlen.
  - exists bf. simpl. do 3 (split; [done|]).
    intros i x' Hx. exists x'. split; [done | lia].
  - simpl. destruct (decide _) as [Hbit|Hbit].
    + destruct (lookup_lt_is_Some_2 bf start) as [x Hx]; [lia|].
      rewrite Hx.
      destruct (IH (S start) (<[start := x + 1]> bf)) as
        (bf' & E & Hl & Hlow & Hall); [rewrite length_insert; lia|].
      exists bf'. split; [done|]. rewrite length_insert in Hl.
      split; [done|]. split.
      * intros i Hi. rewrite Hlow by lia.
        apply list_lookup_insert_ne. lia.
      * intros i x' Hi. destruct (decide (i = start)) as [->|Hne].
        -- rewrite Hlow, list_lookup_insert_eq in Hi by lia. simplify_eq.
           exists x. split; [done | lia].
        -- destruct (Hall i x' Hi) as (y & Hy & Hb).
           rewrite list_lookup_insert_ne in Hy by done.
           exists y. split; [done | lia].
    + destruct (IH (S start) bf) as (bf' & E & Hl & Hlow & Hall); [lia|].
      exists bf'. split; [done|]. split; [done|]. split; [|done].
      intros i Hi. apply Hlow. lia.
Qed.

Section analyzer_props.
Context {G : Type} `{!Iterator G}.

(** One sample: [visit] never raises, counts the sample, keeps the larger
    of [max] and the sample, makes the table as long as [bin(max)] has
    digits and adds at most one to each entry. *)
Lemma visit_spec (self : Analyzer.t G) l num :
  let max' := match Analyzer.max self with
              | None => num
              | Some mx => if num >? mx then num else mx
              end in
  ∃ freqs mn,
    Analyzer.visit self l num =
      ({| Analyzer.rand_num_gen := Analyzer.rand_num_gen self;
          Analyzer.max := Some max'; Analyzer.min := Some mn;
          Analyzer.average := Analyzer.average self;
          Analyzer.period := Analyzer.period self;
          Analyzer.bit_freqs := freqs |},
       {| Analyzer.total := Analyzer.total l + num;
          Analyzer.count := Analyzer.count l + 1;
          Analyzer.seen_numbers := {[num]} ∪ Analyzer.seen_numbers l;
          Analyzer.samples := Analyzer.samples l ++ [num] |},
       None)
    ∧ Z.of_nat (length freqs)
      = Z.max (Z.of_nat (length (Analyzer.bit_freqs self)))
              (Z.of_nat (length (bin max')) - 2)
    ∧ ∀ i x', freqs !! i = Some x' →
        ∃ x, x ≤ x' ≤ x + 1
             ∧ (Analyzer.bit_freqs self !! i = Some x
                ∨ x = 0 ∧ (length (Analyzer.bit_freqs self) ≤ i)%nat).
Proof.
  intros max'. unfold Analyzer.visit. cbv zeta. fold max'.
  set (bl := Z.of_nat (length (bin max')) - 2).
  set (bf := Analyzer.bit_freqs self).
  pose proof (bin_length_pos max') as Hbl. fold bl in Hbl.
  set (ext := if Z.of_nat (length bf) <? bl
              then bf ++ replicate (Z.to_nat (bl - Z.of_nat (length bf))) 0
              else bf).
  assert (Z.of_nat (length ext) = Z.max (Z.of_nat (length bf)) bl) as Hext.
  { unfold ext. destruct (Z.ltb_spec (Z.of_nat (length bf)) bl); [|lia].
    rewrite length_app, length_replicate. lia. }
  assert (∀ i x, ext !! i = Some x →
                 bf !! i = Some x ∨ x = 0 ∧ (length bf ≤ i)%nat) as Hentry.
  { intros i x. unfold ext.
    destruct (Z.ltb_spec (Z.of_nat (length bf)) bl); [|by left].
    intros [?|[? Hr]]%lookup_app_Some; [by left|right].
    apply lookup_replicate in Hr as [-> _]. done. }
  destruct (count_bits_spec num (Z.to_nat bl) 0 ext) as
    (bf' & E & Hl & _ & Hall); [lia|].
  rewrite E. exists bf'. eexists. split; [reflexivity|].
  split; [by rewrite Hl|].
  intros i x' Hi. destruct (Hall i x' Hi) as (x & Hx & Hb).
  exists x. split; [done|]. by apply Hentry.
Qed.

Lemma visit_all_ind (P : Analyzer.t G → Analyzer.locals → Prop) :
  (∀ self l num self' l' r,
     P self l → Analyzer.visit self l num = (self', l', r) →
     P self' l' ∧ r = None) →
  ∀ numbers self l self' l' r,
    P self l → Analyzer.visit_all self l numbers = (self', l', r) →
    P self' l' ∧ r = None.
Proof.
  intros Hstep. induction numbers as [|num numbers IH];
    intros self l self' l' r HP Hrun; simpl in Hrun.
  - by simplify_eq.
  - destruct (Analyzer.visit self l num) as [[self1 l1] r1] eqn:E.
    destruct (Hstep _ _ _ _ _ _ HP E) as [HP1 ->]. by eapply IH.
Qed.

Lemma iterate_ind (P : Analyzer.t G → Analyzer.locals → Prop) :
  (∀ self l num self' l' r,
     P self l → Analyzer.visit self l num = (self', l', r) →
     P self' l' ∧ r = None) →
  ∀ fuel max_nums g self l g' self' l' r,
    P self l →
    Analyzer.iterate fuel max_nums g self l = Some (g', self', l', r) →
    P self' l'.
Proof.
  intros Hstep. induction fuel as [|fuel IH];
    intros max_nums g self l g' self' l' r HP Hrun; simpl in Hrun; [done|].
  destruct (next g) as [g1 [x| |e]]; [|by simplify_eq..].
  destruct (decide _); [by simplify_eq|].
  destruct (Analyzer.visit_all _ _ _) as [[self1 l1] r1] eqn:E.
  destruct (visit_all_ind P Hstep _ _ _ _ _ _ HP E) as [HP1 ->].
  by eapply IH.
Qed.

Lemma counted_step (self : Analyzer.t G) l num self' l' r :
  counted l → Analyzer.visit self l num = (self', l', r) →
  counted l' ∧ r = None.
Proof.
  intros [Hc Hs] Hv.
  destruct (visit_spec self l num) as (freqs & mn & E & _).
  rewrite E in Hv. simplify_eq. split; [|done]. split; simpl.
  - rewrite length_app, Hc. simpl. lia.
  - rewrite list_to_set_app_L, Hs. simpl.
    rewrite (right_id_L ∅ (∪)). apply (comm_L (∪)).
Qed.

Lemma tallied_step (self : Analyzer.t G) l num self' l' r :
  tallied self l → Analyzer.visit self l num = (self', l', r) →
  tallied self' l' ∧ r = None.
Proof.
  unfold tallied. intros [Hc Ht] Hv.
  destruct (visit_spec self l num) as (freqs & mn & E & _ & Hall).
  rewrite E in Hv. simplify_eq. split; [|done]. simpl.
  split; [lia|]. apply Forall_lookup. intros i x' Hi.
  destruct (Hall i x' Hi) as (x & Hb & [Hx|[-> _]]); [|lia].
  pose proof (Forall_lookup_1 _ _ _ _ Ht Hx). simpl in *. lia.
Qed.

Lemma sized_step (self : Analyzer.t G) l num self' l' r :
  sized self l → Analyzer.visit self l num = (self', l', r) →
  sized self' l' ∧ r = None.
Proof.
  intros [Hnil Hcons] Hv.
  destruct (visit_spec self l num) as (freqs & mn & E & Hlen & _).
  rewrite E in Hv. simplify_eq. split; [|done]. split; simpl.
  { intros Habs. by destruct (Analyzer.samples l). }
  intros _. eexists. split; [done|].
  destruct (decide (Analyzer.samples l = [])) as [Hs|Hs].
  - destruct (Hnil Hs) as [Hmax Hbf]. rewrite Hmax, Hbf, Hs in *.
    simpl. split; [apply list_elem_of_singleton; done|].
    split; [by repeat constructor|]. intros _.
    pose proof (bin_length_pos num). simpl in Hlen. lia.
  - destruct (Hcons Hs) as (mx & Hmax & Hin & Hle & Hsize).
    rewrite Hmax in *.
    assert ((if num >? mx then num else mx) = Z.max mx num) as Hm
      by (destruct (Z.gtb_spec num mx); lia).
    rewrite Hm in *. split; [|split].
    + apply elem_of_app. destruct (Z.max_spec mx num) as [[_ ->]|[_ ->]].
      * right. by apply list_elem_of_singleton.
      * by left.
    + apply Forall_app. split.
      * eapply Forall_impl; [exact Hle|]. simpl. lia.
      * repeat constructor. lia.
    + intros [Hpos Hnum]%Forall_app. rewrite Hlen, (Hsize Hpos).
      assert (0 ≤ mx) by (by apply (proj1 (Forall_forall _ _) Hpos)).
      rewrite !bin_length_nonneg by lia.
      pose proof (bit_length_mono mx (Z.max mx num) ltac:(lia)). lia.
Qed.

Lemma visit_all_spec (self : Analyzer.t G) l numbers :
  ∃ self' l',
    Analyzer.visit_all self l numbers = (self', l', None)
    ∧ Analyzer.count l' = Analyzer.count l + Z.of_nat (length numbers)
    ∧ Analyzer.samples l' = Analyzer.samples l ++ numbers.
Proof.
  revert self l. induction numbers as [|num numbers IH]; intros self l.
  - exists self, l. simpl. split; [done|]. split; [lia|].
    by rewrite app_nil_r.
  - destruct (visit_spec self l num) as (freqs & mn & E & _).
    simpl. rewrite E.
    match goal with
    | |- context [Analyzer.visit_all ?s ?k numbers] =>
        destruct (IH s k) as (self' & l' & E' & Hc & Hs)
    end.
    exists self', l'. split; [done|]. simpl in Hc, Hs.
    split; [lia|]. by rewrite Hs, <- app_assoc.
Qed.

(** The loop ends within [max_nums - count + 1] advances when no empty
    list is yielded. *)
Lemma iterate_terminates :
  productive G →
  ∀ fuel max_nums g (self : Analyzer.t G) l,
    (Z.to_nat (max_nums - Analyzer.count l) < fuel)%nat →
    is_Some (Analyzer.iterate fuel max_nums g self l).
Proof.
  intros Hprod. induction fuel as [|fuel IH];
    intros max_nums g self l Hfuel; [lia|]. simpl.
  destruct (next g) as [g1 [x| |e]] eqn:En; [|by eexists..].
  destruct (decide _) as [|Hlt]; [by eexists|].
  destruct (visit_all_spec self l
              match x with Vector ns => ns | Scalar n => [n] end)
    as (self' & l' & E & Hc & _).
  rewrite E. apply IH.
  assert (0 < length match x with Vector ns => ns | Scalar n => [n] end)%nat.
  { destruct x as [n|ns]; [simpl; lia|].
    pose proof (Hprod g g1 ns En). destruct ns; [done | simpl; lia]. }
  lia.
Qed.

Lemma analyze_terminates (self : Analyzer.t G) max_nums :
  productive G → Analyzer.analyze self max_nums ≠ Analyzer.Diverged.
Proof.
  intros Hprod. unfold Analyzer.analyze. cbv zeta.
  match goal with
  | |- context [Analyzer.iterate ?f ?m ?g ?s ?l] =>
      destruct (iterate_terminates Hprod f m g s l) as [[[[g' s'] l'] r] ->]
  end; [simpl; lia|].
  destruct r; [done|]. by destruct (if _ >? 0 then _ else _).
Qed.

Lemma analyze_returned (self : Analyzer.t G) max_nums self' l :
  Analyzer.analyze self max_nums = Analyzer.Returned self' l →
  ∃ g' self1,
    Analyzer.iterate (S (Z.to_nat max_nums)) max_nums
      (Analyzer.rand_num_gen self) self
      {| Analyzer.total := 0; Analyzer.count := 0;
         Analyzer.seen_numbers := ∅; Analyzer.samples := [] |}
    = Some (g', self1, l, None)
    ∧ Analyzer.max self' = Analyzer.max self1
    ∧ Analyzer.bit_freqs self' = Analyzer.bit_freqs self1
    ∧ Analyzer.period self'
      = (if isinstance_Acorn G
         then Z.of_nat (size (Analyzer.seen_numbers l))
         else Analyzer.count l)
    ∧ Analyzer.rand_num_gen self' = g'
    ∧ Analyzer.min self' = Analyzer.min self1
    ∧ (if Analyzer.count l >? 0
       then true_div (Analyzer.total l) (Analyzer.count l)
       else inr (Qmake 0 1)) = inr (Analyzer.average self').
Proof.
  unfold Analyzer.analyze. cbv zeta. intros Hrun.
  destruct (Analyzer.iterate _ _ _ _ _) as [[[[g' self1] l1] [e|]]|];
    [done| |done].
  destruct (if _ >? 0 then _ else _) eqn:Hdiv; [done|].
  simplify_eq. by exists g', self1.
Qed.







(** With a generator of scalars and a bound that is not negative the
    number of samples stays within the bound. *)
Lemma iterate_scalar_bound fuel : ∀ max_nums g (self : Analyzer.t G) l r,
  (∀ (g g' : G) ns, next g ≠ (g', Yield (Vector ns))) →
  Analyzer.count l ≤ max_nums →
  Analyzer.iterate fuel max_nums g self l = Some r →
  Analyzer.count r.1.2 ≤ max_nums.
Proof.
  induction fuel as [|fuel IH]; intros max_nums g self l r Hsc Hle Hrun;
    simpl in Hrun; [done|].
  destruct (next g) as [g1 [x| |e]] eqn:En; [|by simplify_eq..].
  destruct (decide _) as [|Hlt]; [by simplify_eq|].
  destruct x as [n|ns]; [|by destruct (Hsc g g1 ns)].
  destruct (visit_all_spec self l [n]) as (self' & l' & E & Hc & _).
  rewrite E in Hrun. eapply IH; [done| |exact Hrun]. simpl in Hc. lia.
Qed.

(** C6, amended.  After a run of [analyze] on a new Analyzer every
    entry of [bit_freqs] is at most the number of samples handled; [max]
    is the largest sample; and when no sample is negative the table has
    [len(bin(max)) - 2] entries, which is [bit_length(max)] except for
    [max = 0], where it is 1.  (No sample, no entry.)  The run returns,
    or passes on an exception of the generator, whenever the generator
    yields no empty list. *)
Theorem analyze_bit_freqs (g : G) max_nums :
  (productive G →
   Analyzer.analyze (Analyzer.__init__ g) max_nums ≠ Analyzer.Diverged)
  ∧ ∀ self' l,
      Analyzer.analyze (Analyzer.__init__ g) max_nums
      = Analyzer.Returned self' l →
      Analyzer.count l = Z.of_nat (length (Analyzer.samples l))
      ∧ (∀ i x, Analyzer.bit_freqs self' !! i = Some x →
                0 ≤ x ≤ Analyzer.count l)
      ∧ (Analyzer.samples l = [] → Analyzer.bit_freqs self' = [])
      ∧ (Analyzer.samples l ≠ [] →
         ∃ mx, Analyzer.max self' = Some mx
               ∧ mx ∈ Analyzer.samples l
               ∧ Forall (λ x, x ≤ mx) (Analyzer.samples l)
               ∧ (Forall (λ x, 0 ≤ x) (Analyzer.samples l) →
                  Z.of_nat (length (Analyzer.bit_freqs self'))
                  = Z.max 1 (bit_length mx))).
Proof.
  split; [apply analyze_terminates|]. intros self' l Hrun.
  destruct (analyze_returned _ _ _ _ Hrun)
    as (g' & self1 & Hit & Hmax & Hbf & _).
  rewrite Hmax, Hbf.
  assert (counted l ∧ tallied self1 l ∧ sized self1 l)
    as ([Hc _] & [_ Ht] & [Hnil Hcons]).
  { eapply (iterate_ind (λ s k, counted k ∧ tallied s k ∧ sized s k));
      [..|exact Hit].
    - intros s k num s' k' r (Hc & Ht & Hs) Hv.
      destruct (counted_step _ _ _ _ _ _ Hc Hv) as [? ->].
      destruct (tallied_step _ _ _ _ _ _ Ht Hv) as [? _].
      by destruct (sized_step _ _ _ _ _ _ Hs Hv) as [? _].
    - split; [by split|]. split; [by split|]. by split. }
  split; [done|]. split; [|split].
  - intros i x Hx. exact (Forall_lookup_1 _ _ _ _ Ht Hx).
  - intros Hs. by destruct (Hnil Hs).
  - intros Hs. destruct (Hcons Hs) as (mx & Hm & Hin & Hle & Hsize).
    exists mx. repeat (split; [done|]). intros Hpos.
    rewrite (Hsize Hpos). apply bin_length_nonneg.
    by apply (proj1 (Forall_forall _ _) Hpos).
Qed.

End analyzer_props.

(** ** The four generators under the Analyzer *)

Lemma ms_scalar g g' ns : MiddleSquare.__next__ g ≠ (g', Yield (Vector ns)).
Proof.
  unfold MiddleSquare.__next__. cbv zeta.
  repeat (case_match; try done).
Qed.

Lemma lcg_scalar g g' ns :
  LinearCongruential.__next__ g ≠ (g', Yield (Vector ns)).
Proof.
  unfold LinearCongruential.__next__.
  destruct (decide _); [done|]. by destruct (py_mod _ _).
Qed.

Lemma lf_scalar g g' ns :
  LaggedFibonacci.__next__ g ≠ (g', Yield (Vector ns)).
Proof.
  unfold LaggedFibonacci.__next__. cbv zeta.
  repeat (case_match; try done).
Qed.


Lemma ms_productive : productive MiddleSquare.t.
Proof. intros g g' ns Hn. by destruct (ms_scalar g g' ns). Qed.

Lemma lcg_productive : productive LinearCongruential.t.
Proof. intros g g' ns Hn. by destruct (lcg_scalar g g' ns). Qed.

Lemma lf_productive : productive LaggedFibonacci.t.
Proof. intros g g' ns Hn. by destruct (lf_scalar g g' ns). Qed.



(** C2 at a bound of 5: the bound is tested once for each yielded list,
    so the nine numbers of the first list are all handled. *)
Lemma analyze_overshoots_max_nums :
  ∃ g self' l,
    Acorn.__init__ (PyList (PyInt <$> [1; 5; 6; 4; 4; 5; 8; 9; 4]))
      (PyInt 12356) = inr g
    ∧ Analyzer.analyze (Analyzer.__init__ g) 5 = Analyzer.Returned self' l
    ∧ Analyzer.samples l = [1; 6; 12; 16; 20; 25; 33; 42; 46]
    ∧ Analyzer.count l = 9
    ∧ ¬ Analyzer.count l ≤ 5.
Proof.
  do 3 eexists. split; [vm_compute; reflexivity|].
  split; [vm_compute; reflexivity|].
  do 2 (split; [reflexivity|]). simpl. lia.
Qed.

(** What does hold of the bound: a generator of scalars is never taken
    past it. *)
Lemma analyze_scalar_bound {G} `{!Iterator G} (self : Analyzer.t G)
    max_nums self' l :
  (∀ (g g' : G) ns, next g ≠ (g', Yield (Vector ns))) →
  0 ≤ max_nums →
  Analyzer.analyze self max_nums = Analyzer.Returned self' l →
  Analyzer.count l ≤ max_nums.
Proof.
  intros Hsc Hmax Hrun.
  destruct (analyze_returned _ _ _ _ Hrun) as (g' & self1 & Hit & _).
  by apply (iterate_scalar_bound _ _ _ _ _ _ Hsc) in Hit.
Qed.

(** C6, as stated, fails: the seed 1000 yields the single value 0, for
    which the table has one entry although [bit_length(0) = 0]. *)
Lemma analyze_bit_freqs_counterexample :
  ∃ g self' l,
    MiddleSquare.__init__ (PyInt 1000) = inr g
    ∧ Analyzer.analyze (Analyzer.__init__ g) Analyzer.max_nums_default
      = Analyzer.Returned self' l
    ∧ Analyzer.samples l = [0]
    ∧ Analyzer.max self' = Some 0
    ∧ Analyzer.bit_freqs self' = [0]
    ∧ ¬ Z.of_nat (length (Analyzer.bit_freqs self')) ≤ bit_length 0.
Proof.
  do 3 eexists. split; [vm_compute; reflexivity|].
  split; [vm_compute; reflexivity|].
  do 3 (split; [reflexivity|]). simpl. unfold bit_length. simpl. lia.
Qed.

(** A full-period generator modulo 8: eight samples, three table entries,
    each of them 4. *)
Lemma analyze_bit_freqs_witness :
  let g := LinearCongruential.__init__ 3 5 1 8 in
  Analyzer.analyze (Analyzer.__init__ g) 100 ≠ Analyzer.Diverged
  ∧ ∃ self' l,
      Analyzer.analyze (Analyzer.__init__ g) 100 = Analyzer.Returned self' l
      ∧ Analyzer.count l = 8
      ∧ Analyzer.max self' = Some 7
      ∧ Z.of_nat (length (Analyzer.bit_freqs self')) = 3
      ∧ ∀ i x, Analyzer.bit_freqs self' !! i = Some x → 0 ≤ x ≤ 8.
Proof.
  intros g. destruct (analyze_bit_freqs g 100) as [Hterm Hret].
  split; [apply Hterm, lcg_productive|].
  destruct (Analyzer.analyze (Analyzer.__init__ g) 100) as [self' l| |] eqn:E;
    [|vm_compute in E; discriminate..].
  destruct (Hret self' l eq_refl) as (Hc & Hall & _ & Hsize).
  exists self', l. split; [done|].
  assert (Analyzer.samples l = [0; 1; 6; 7; 4; 5; 2; 3]
          ∧ Analyzer.max self' = Some 7) as [Hs Hm].
  { vm_compute in E. by injection E as <- <-. }
  rewrite Hs in Hc, Hsize.
  destruct (Hsize ltac:(done)) as (mx & Hmx & _ & _ & Hlen).
  rewrite Hm in Hmx. injection Hmx as <-.
  split; [done|]. split; [done|]. split.
  - rewrite Hlen; [done|]. repeat constructor; lia.
  - intros i x Hx. pose proof (Hall i x Hx). simpl in Hc. lia.
Defined.

(** Why the samples must not be negative: with the modulus -8 the first
    sample is -7, for which the table gets four entries ([bin(-7)] is
    "-0b111"), and the largest sample is 0. *)
Lemma analyze_bit_freqs_negative_samples :
  ∃ self' l,
    Analyzer.analyze
      (Analyzer.__init__ (LinearCongruential.__init__ (-10) 1 3 (-8))) 100
    = Analyzer.Returned self' l
    ∧ Analyzer.samples l = [-7; -4; -1; -6; -3; 0; -5; -2; -7]
    ∧ Analyzer.max self' = Some 0
    ∧ length (Analyzer.bit_freqs self') = 4%nat.
Proof.
  do 2 eexists. split; [vm_compute; reflexivity|]. by repeat split.
Qed.

(** * Further properties *)

(** ** MiddleSquare: construction *)




(** ** MiddleSquare: the sequence *)

(** The yielded values are pairwise different. *)
Lemma ms_history_nodup g h : ms_history g h → NoDup h.
Proof.
  induction 1 as [seed g Hinit | g h g' o Hh IH Hnext | g h d g' _ IH _ _];
    [constructor| |done].
  destruct (ms_history_inv g h Hh) as [Hexp Hseen].
  destruct Hexp as (v & n & Hv & Hn & Hpos & Heven & Hb).
  destruct (ms_next_fits g v n Hv Hn Hpos Hb) as (_ & _ & v' & _ & _ & E).
  rewrite E in Hnext.
  destruct (decide (v' ∈ MiddleSquare.seen_numbers g)) as [Hin|Hin];
    simplify_eq; simpl; [by rewrite app_nil_r|].
  apply NoDup_app. split; [done|]. split; [|apply NoDup_singleton].
  intros x Hx ->%list_elem_of_singleton.
  apply Hin. rewrite Hseen. by apply elem_of_list_to_set.
Qed.

(** X2.  An advance of a reachable instance never raises and never
    changes the digit count; what it yields is a scalar in
    [0 .. 10^ndigits - 1] that no earlier advance has yielded. *)
Theorem ms_next_total g h :
  ms_history g h →
  ∃ n, MiddleSquare.__state g !! "ndigits"%string = Some n
       ∧ MiddleSquare.__state (MiddleSquare.__next__ g).1
           !! "ndigits"%string = Some n
       ∧ MiddleSquare.seed (MiddleSquare.__next__ g).1 = MiddleSquare.seed g
       ∧ (∀ e, (MiddleSquare.__next__ g).2 ≠ Raise e)
       ∧ ∀ x, (MiddleSquare.__next__ g).2 = Yield x →
              ∃ v, x = Scalar v ∧ 0 ≤ v < 10 ^ n ∧ v ∉ h.
Proof.
  intros Hh. destruct (ms_history_inv g h Hh) as [Hexp Hseen].
  destruct Hexp as (v & n & Hv & Hn & Hpos & Heven & Hb).
  destruct (ms_next_fits g v n Hv Hn Hpos Hb) as (_ & _ & v' & _ & Hv' & E).
  exists n. split; [done|]. rewrite E.
  destruct (decide (v' ∈ MiddleSquare.seen_numbers g)) as [Hin|Hin]; simpl;
    (split; [by rewrite lookup_insert_ne|]); (split; [done|]);
    (split; [done|]); intros x Hx; [done|].
  simplify_eq. exists v'. repeat split; try done; try lia.
  rewrite Hseen in Hin. by rewrite elem_of_list_to_set in Hin.
Qed.

Lemma ms_next_total_witness :
  ∃ g, MiddleSquare.__init__ (PyInt 1000) = inr g
       ∧ ∀ e, (MiddleSquare.__next__ g).2 ≠ Raise e.
Proof.
  destruct (MiddleSquare.__init__ (PyInt 1000)) as [e|g] eqn:Hinit;
    [vm_compute in Hinit; discriminate|].
  exists g. split; [done|].
  destruct (ms_next_total g [] (ms_constructed _ g Hinit))
    as (n & _ & _ & _ & Hno & _).
  exact Hno.
Defined.

(** Pigeonhole: a list without repetition of numbers in [0 .. N - 1] has
    at most [N] elements. *)
Lemma nodup_range_length (l : list Z) N :
  NoDup l → Forall (λ x, 0 ≤ x < N) l → Z.of_nat (length l) ≤ Z.max 0 N.
Proof.
  intros Hnd Hr.
  assert (l ⊆+ (Z.of_nat <$> seq 0 (Z.to_nat N))) as Hsub.
  { apply NoDup_submseteq; [done|]. intros x Hx.
    apply (proj1 (Forall_forall _ _) Hr) in Hx.
    apply list_elem_of_fmap. exists (Z.to_nat x). split; [lia|].
    apply elem_of_seq. lia. }
  apply submseteq_length in Hsub.
  rewrite length_fmap, length_seq in Hsub. lia.
Qed.

Lemma ms_drain_bounded n fuel : ∀ g h v,
  MiddleSquare.__state g !! "val"%string = Some v →
  MiddleSquare.__state g !! "ndigits"%string = Some n →
  0 < n → Z.abs v < 10 ^ n →
  MiddleSquare.seen_numbers g = list_to_set h →
  NoDup h → Forall (λ x, 0 ≤ x < 10 ^ n) h →
  (Z.to_nat (10 ^ n) - length h < fuel)%nat →
  ∃ xs g', drain fuel g = (Scalar <$> xs, Exhausted, g')
           ∧ NoDup (h ++ xs) ∧ Forall (λ x, 0 ≤ x < 10 ^ n) (h ++ xs).
Proof.
  induction fuel as [|fuel IH];
    intros g h v Hv Hn Hpos Hb Hseen Hnd Hr Hfuel; [lia|].
  destruct (ms_next_fits g v n Hv Hn Hpos Hb) as (_ & _ & v' & _ & Hv' & E).
  rewrite drain_S. simpl next. rewrite E.
  destruct (decide (v' ∈ MiddleSquare.seen_numbers g)) as [Hin|Hin].
  - exists [], (MiddleSquare.with_state g
                  (<["val"%string := v']> (MiddleSquare.__state g))).
    by rewrite app_nil_r.
  - assert (NoDup (h ++ [v'])) as Hnd'.
    { apply NoDup_app. split; [done|]. split; [|apply NoDup_singleton].
      intros x Hx ->%list_elem_of_singleton.
      apply Hin. rewrite Hseen. by apply elem_of_list_to_set. }
    assert (Forall (λ x, 0 ≤ x < 10 ^ n) (h ++ [v'])) as Hr'.
    { apply Forall_app. split; [done|]. by apply Forall_singleton. }
    pose proof (nodup_range_length _ _ Hnd' Hr') as Hlen.
    rewrite length_app in Hlen. simpl in Hlen.
    match goal with
    | |- context [drain fuel ?g1] =>
        destruct (IH g1 (h ++ [v']) v') as (xs & g' & Hd & Hnd'' & Hr'')
    end; simpl; try done.
    + by rewrite lookup_insert_eq.
    + by rewrite lookup_insert_ne.
    + lia.
    + rewrite list_to_set_app_L, Hseen. simpl.
      rewrite (right_id_L ∅ (∪)). apply (comm_L (∪)).
    + rewrite length_app. simpl. lia.
    + rewrite Hd. exists (v' :: xs), g'. rewrite <- app_assoc in Hnd'', Hr''.
      by split.
Qed.

(** X3.  A constructed MiddleSquare always runs out: iterating it to the
    end yields at most [10^ndigits] values, all different and all in
    [0 .. 10^ndigits - 1], and then signals exhaustion without ever
    raising. *)
Theorem ms_drain_exhausts seed g :
  MiddleSquare.__init__ seed = inr g →
  ∃ n, MiddleSquare.__state g !! "ndigits"%string = Some n
       ∧ ∀ fuel, (Z.to_nat (10 ^ n) < fuel)%nat →
           ∃ xs g', drain fuel g = (Scalar <$> xs, Exhausted, g')
                    ∧ NoDup xs
                    ∧ Forall (λ x, 0 ≤ x < 10 ^ n) xs
                    ∧ Z.of_nat (length xs) ≤ 10 ^ n.
Proof.
  intros Hinit.
  destruct (ms_history_inv g [] (ms_constructed seed g Hinit)) as [Hexp Hseen].
  destruct Hexp as (v & n & Hv & Hn & Hpos & Heven & Hb).
  exists n. split; [done|]. intros fuel Hfuel.
  destruct (ms_drain_bounded n fuel g [] v Hv Hn Hpos Hb Hseen)
    as (xs & g' & Hd & Hnd & Hr); [constructor | constructor | simpl; lia|].
  exists xs, g'. simpl in Hnd, Hr. repeat (split; [done|]).
  pose proof (nodup_range_length _ _ Hnd Hr). lia.
Qed.

Lemma ms_drain_exhausts_witness :
  ∃ g xs, MiddleSquare.__init__ (PyInt 1000) = inr g
          ∧ (drain (S (Z.to_nat 10000)) g).1 = (Scalar <$> xs, Exhausted)
          ∧ NoDup xs.
Proof.
  destruct (MiddleSquare.__init__ (PyInt 1000)) as [e|g] eqn:Hinit;
    [vm_compute in Hinit; discriminate|].
  destruct (ms_drain_exhausts (PyInt 1000) g Hinit) as (n & Hn & Hall).
  assert (n = 4) as ->.
  { vm_compute in Hinit. injection Hinit as <-. vm_compute in Hn.
    by injection Hn. }
  destruct (Hall (S (Z.to_nat 10000)) ltac:(change (10 ^ 4) with 10000; lia))
    as (xs & g' & Hd & Hnd & _).
  exists g, xs. split; [done|]. by rewrite Hd.
Defined.

(** ** MiddleSquare: export and import *)

(** X4.  Importing what [get_state] exported gives back the same
    instance, seen-set included; a dictionary that lacks ["ndigits"] or
    ["val"] is refused with [ValueError] and nothing is changed. *)
Theorem ms_state_round_trip :
  (∀ g h, ms_history g h →
          MiddleSquare.set_state g (MiddleSquare.get_state g) = (g, None))
  ∧ (∀ g d,
       d !! "ndigits"%string = None ∨ d !! "val"%string = None →
       MiddleSquare.set_state g d
       = (g, Some (ValueError "Invalid dictionary"))).
Proof.
  split.
  - intros g h Hh. destruct (ms_history_inv g h Hh) as [Hexp _].
    destruct Hexp as (v & n & Hv & Hn & _).
    unfold MiddleSquare.set_state, MiddleSquare.get_state.
    rewrite decide_True by (by rewrite Hv, Hn). by destruct g.
  - intros g d Hd. unfold MiddleSquare.set_state.
    rewrite decide_False; [done|].
    intros [[? Hn] [? Hv]]. destruct Hd; congruence.
Qed.

Lemma ms_state_round_trip_witness :
  ∃ g, MiddleSquare.__init__ (PyInt 1000) = inr g
       ∧ MiddleSquare.set_state g (MiddleSquare.get_state g) = (g, None)
       ∧ MiddleSquare.set_state g ({["val"%string := 5]})
         = (g, Some (ValueError "Invalid dictionary")).
Proof.
  destruct (MiddleSquare.__init__ (PyInt 1000)) as [e|g] eqn:Hinit;
    [vm_compute in Hinit; discriminate|].
  exists g. split; [done|]. split.
  - exact (proj1 ms_state_round_trip g [] (ms_constructed _ g Hinit)).
  - apply (proj2 ms_state_round_trip). left. by vm_compute.
Defined.

(** X5.  The seen-set survives an import.  So when a state is exported,
    the generator is advanced and yields a value, and the exported state
    is imported again, the next advance recomputes that value, finds it
    in the seen-set and signals exhaustion at once. *)
Theorem ms_restore_then_stop g h g1 x :
  ms_history g h →
  MiddleSquare.__next__ g = (g1, Yield x) →
  ∃ g2, MiddleSquare.set_state g1 (MiddleSquare.get_state g) = (g2, None)
        ∧ MiddleSquare.seen_numbers g2 = MiddleSquare.seen_numbers g1
        ∧ (MiddleSquare.__next__ g2).2 = StopIteration.
Proof.
  intros Hh Hnext. destruct (ms_history_inv g h Hh) as [Hexp _].
  destruct Hexp as (v & n & Hv & Hn & Hpos & _ & Hb).
  destruct (ms_next_fits g v n Hv Hn Hpos Hb) as (_ & _ & v' & Hint & _ & E).
  rewrite E in Hnext.
  destruct (decide (v' ∈ MiddleSquare.seen_numbers g)); [done|].
  simplify_eq.
  unfold MiddleSquare.set_state, MiddleSquare.get_state.
  rewrite decide_True by (by rewrite Hv, Hn).
  eexists. split; [done|]. split; [done|].
  match goal with
  | |- (MiddleSquare.__next__ ?g2).2 = _ =>
      destruct (ms_next_fits g2 v n Hv Hn Hpos Hb)
        as (_ & _ & v'' & Hint' & _ & E')
  end.
  rewrite Hint in Hint'. simplify_eq. rewrite E'.
  rewrite decide_True; [done|]. simpl.
  apply elem_of_union. left. by apply elem_of_singleton.
Qed.

Lemma ms_restore_then_stop_witness :
  ∃ g g1 g2,
    MiddleSquare.__init__ (PyInt 45725946) = inr g
    ∧ MiddleSquare.__next__ g = (g1, Yield (Scalar 86213759))
    ∧ MiddleSquare.set_state g1 (MiddleSquare.get_state g) = (g2, None)
    ∧ (MiddleSquare.__next__ g2).2 = StopIteration.
Proof.
  destruct (MiddleSquare.__init__ (PyInt 45725946)) as [e|g] eqn:Hinit;
    [vm_compute in Hinit; discriminate|].
  destruct (MiddleSquare.__next__ g) as [g1 o] eqn:Hnext.
  assert (o = Yield (Scalar 86213759)) as ->.
  { vm_compute in Hinit. injection Hinit as <-. vm_compute in Hnext.
    by injection Hnext as _ <-. }
  destruct (ms_restore_then_stop g [] g1 _ (ms_constructed _ g Hinit) Hnext)
    as (g2 & Hset & _ & Hstop).
  by exists g, g1, g2.
Defined.

(** ** LinearCongruential: the sequence *)

Lemma nodup_incl_length (l k : list Z) :
  NoDup l → (∀ x, x ∈ l → x ∈ k) → (length l ≤ length k)%nat.
Proof. intros Hnd Hin. by apply submseteq_length, NoDup_submseteq. Qed.

Lemma lcg_drain_bounded s m fuel : ∀ g h,
  0 < m → LinearCongruential.__m g = m →
  LinearCongruential.__seen_numbers g = list_to_set h →
  NoDup h → (∀ x, x ∈ h → x = s ∨ 0 ≤ x < m) →
  (LinearCongruential.__value g = s
   ∨ 0 ≤ LinearCongruential.__value g < m) →
  (S (Z.to_nat m) - length h < fuel)%nat →
  ∃ xs g', drain fuel g = (Scalar <$> xs, Exhausted, g')
           ∧ Forall (λ x, 0 ≤ x < m) xs
           ∧ (length h + length xs ≤ S (Z.to_nat m))%nat
           ∧ LinearCongruential.__next__ g' = (g', StopIteration).
Proof.
  induction fuel as [|fuel IH]; intros g h Hm Hgm Hseen Hnd Hh Hv Hfuel;
    [lia|].
  assert (∀ l, NoDup l → (∀ x, x ∈ l → x = s ∨ 0 ≤ x < m) →
               (length l ≤ S (Z.to_nat m))%nat) as Hpigeon.
  { intros l Hl Hin.
    pose proof (nodup_incl_length l (s :: (Z.of_nat <$> seq 0 (Z.to_nat m)))
                  Hl) as Hlen.
    simpl in Hlen. rewrite length_fmap, length_seq in Hlen. apply Hlen.
    intros x Hx. destruct (Hin x Hx) as [->|Hr]; [by left|right].
    apply list_elem_of_fmap. exists (Z.to_nat x). split; [lia|].
    apply elem_of_seq. lia. }
  rewrite drain_S. simpl next.
  destruct (decide (LinearCongruential.__value g
                    ∈ LinearCongruential.__seen_numbers g)) as [Hin|Hin].
  - rewrite lcg_next_stop by done. exists [], g.
    split; [done|]. split; [constructor|].
    split; [|by apply lcg_next_stop].
    pose proof (Hpigeon h Hnd Hh). simpl. lia.
  - rewrite lcg_next_yield; [|done|rewrite Hgm; lia]. cbv beta iota zeta.
    set (v := LinearCongruential.__value g) in *.
    set (v' := (LinearCongruential.__a g * v + LinearCongruential.__c g)
               mod LinearCongruential.__m g).
    assert (0 ≤ v' < m) as Hv'
      by (unfold v'; rewrite Hgm; by apply Z.mod_pos_bound).
    assert (NoDup (h ++ [v])) as Hnd'.
    { apply NoDup_app. split; [done|]. split; [|apply NoDup_singleton].
      intros x Hx ->%list_elem_of_singleton.
      apply Hin. rewrite Hseen. by apply elem_of_list_to_set. }
    assert (∀ x, x ∈ h ++ [v] → x = s ∨ 0 ≤ x < m) as Hh'.
    { intros x [Hx| ->%list_elem_of_singleton]%elem_of_app; [by apply Hh|].
      done. }
    pose proof (Hpigeon _ Hnd' Hh') as Hlen.
    rewrite length_app in Hlen. simpl in Hlen.
    match goal with
    | |- context [drain fuel ?g1] =>
        destruct (IH g1 (h ++ [v])) as (xs & g' & Hd & Hr & Hl & Hstop)
    end; simpl; try done.
    + rewrite list_to_set_app_L, Hseen. simpl.
      rewrite (right_id_L ∅ (∪)). apply (comm_L (∪)).
    + by right.
    + rewrite length_app. simpl. lia.
    + rewrite Hd. exists (v' :: xs), g'. split; [done|].
      split; [by constructor|]. split; [|done].
      rewrite length_app in Hl. simpl in *. lia.
Qed.

(** X6.  With a modulus [m > 0] a LinearCongruential generator always
    runs out: iterating it to the end yields at most [m + 1] values, all
    in [0 .. m - 1], never raises, and once it has signalled exhaustion
    every further advance signals it again and changes nothing. *)
Theorem lcg_drain_exhausts seed a c m fuel :
  0 < m → (S (Z.to_nat m) < fuel)%nat →
  ∃ xs g',
    drain fuel (LinearCongruential.__init__ seed a c m)
    = (Scalar <$> xs, Exhausted, g')
    ∧ Forall (λ x, 0 ≤ x < m) xs
    ∧ (length xs ≤ S (Z.to_nat m))%nat
    ∧ LinearCongruential.__next__ g' = (g', StopIteration).
Proof.
  intros Hm Hfuel.
  destruct (lcg_drain_bounded seed m fuel
              (LinearCongruential.__init__ seed a c m) [])
    as (xs & g' & Hd & Hr & Hl & Hstop);
    [done | done | done | constructor
    | by intros x Hx; apply elem_of_nil in Hx
    | by left
    | change (length (@nil Z)) with 0%nat; lia |].
  by exists xs, g'.
Qed.

Lemma lcg_drain_exhausts_witness :
  ∃ xs g',
    drain 10 (LinearCongruential.__init__ 3 5 1 8)
    = (Scalar <$> xs, Exhausted, g')
    ∧ Forall (λ x, 0 ≤ x < 8) xs
    ∧ (length xs ≤ S (Z.to_nat 8))%nat
    ∧ LinearCongruential.__next__ g' = (g', StopIteration).
Proof. apply lcg_drain_exhausts; lia. Defined.

(** ** LinearCongruential: export and import *)

(** X7.  Importing what [get_state] exported keeps [a], [c], [m] and the
    current value and empties the seen-set.  An exhausted generator with
    [m ≠ 0] is thereby revived: its next advance yields
    [(a * value + c) mod m] again. *)
Theorem lcg_state_round_trip g :
  let g' := {| LinearCongruential.seed := LinearCongruential.seed g;
               LinearCongruential.__a := LinearCongruential.__a g;
               LinearCongruential.__c := LinearCongruential.__c g;
               LinearCongruential.__m := LinearCongruential.__m g;
               LinearCongruential.__value := LinearCongruential.__value g;
               LinearCongruential.__state := LinearCongruential.__state g;
               LinearCongruential.__seen_numbers := ∅ |} in
  LinearCongruential.set_state g (LinearCongruential.get_state g)
  = (g', None)
  ∧ (LinearCongruential.__m g ≠ 0 →
     (LinearCongruential.__next__ g').2
     = Yield (Scalar ((LinearCongruential.__a g
                       * LinearCongruential.__value g
                       + LinearCongruential.__c g)
                      mod LinearCongruential.__m g))).
Proof.
  intros g'. split.
  - unfold LinearCongruential.set_state, LinearCongruential.get_state.
    rewrite lookup_insert_ne, lookup_insert_eq by done.
    rewrite !lookup_insert_ne, lookup_insert_eq by done.
    rewrite !lookup_insert_ne, lookup_singleton_eq by done.
    by rewrite lookup_insert_eq.
  - intros Hm. rewrite lcg_next_yield; [done| |done].
    apply not_elem_of_empty.
Qed.

Lemma lcg_state_round_trip_witness :
  let g := {| LinearCongruential.seed := 3; LinearCongruential.__a := 5;
              LinearCongruential.__c := 1; LinearCongruential.__m := 8;
              LinearCongruential.__value := 3;
              LinearCongruential.__state := ∅;
              LinearCongruential.__seen_numbers := {[3]} |} in
  LinearCongruential.__next__ g = (g, StopIteration)
  ∧ (LinearCongruential.__next__
       (LinearCongruential.set_state g
          (LinearCongruential.get_state g)).1).2 = Yield (Scalar 0).
Proof.
  intros g. split.
  - apply lcg_next_stop. vm_compute. reflexivity.
  - destruct (lcg_state_round_trip g) as [Hset Hnext].
    rewrite Hset. exact (Hnext ltac:(done)).
Defined.

(** X8.  [set_state] assigns [a], [c], [m] and the value in this order
    and is not atomic: a dictionary without ["val"] raises
    [KeyError] after [a], [c] and [m] have been replaced, with the value
    and the seen-set left as they were; one without ["a"] changes
    nothing. *)
Theorem lcg_set_state_missing_key g d :
  (d !! "a"%string = None →
   LinearCongruential.set_state g d = (g, Some (KeyError "a")))
  ∧ (∀ a c m,
       d !! "a"%string = Some a → d !! "c"%string = Some c →
       d !! "m"%string = Some m → d !! "val"%string = None →
       LinearCongruential.set_state g d =
         ({| LinearCongruential.seed := LinearCongruential.seed g;
             LinearCongruential.__a := a;
             LinearCongruential.__c := c;
             LinearCongruential.__m := m;
             LinearCongruential.__value := LinearCongruential.__value g;
             LinearCongruential.__state := LinearCongruential.__state g;
             LinearCongruential.__seen_numbers :=
               LinearCongruential.__seen_numbers g |},
          Some (KeyError "val"))).
Proof.
  unfold LinearCongruential.set_state. split.
  - by intros ->.
  - by intros a c m -> -> -> ->.
Qed.

Lemma lcg_set_state_missing_key_witness :
  let g := LinearCongruential.__init__ 36 455 9126 879 in
  LinearCongruential.set_state g ∅ = (g, Some (KeyError "a"))
  ∧ LinearCongruential.__m
      (LinearCongruential.set_state g
         (<["a"%string := 1]> (<["c"%string := 2]> ({["m"%string := 3]})))).1
    = 3.
Proof.
  intros g. split.
  - by apply (proj1 (lcg_set_state_missing_key g ∅)).
  - rewrite (proj2 (lcg_set_state_missing_key g _) 1 2 3);
      [done | by vm_compute..].
Defined.

(** ** LaggedFibonacci: the sequence *)

(** One advance of an instance whose lags fit its window. *)
Lemma lf_next_ok g :
  let st := LaggedFibonacci.__state g in
  0 < LaggedFibonacci.j st → LaggedFibonacci.j st < LaggedFibonacci.k st →
  LaggedFibonacci.k st ≤ Z.of_nat (length (LaggedFibonacci.val st)) →
  LaggedFibonacci.m st ≠ 0 →
  ∃ x y,
    LaggedFibonacci.val st
      !! (length (LaggedFibonacci.val st)
          - Z.to_nat (LaggedFibonacci.k st))%nat = Some x
    ∧ LaggedFibonacci.val st
        !! (length (LaggedFibonacci.val st)
            - Z.to_nat (LaggedFibonacci.j st))%nat = Some y
    ∧ let n := (x + y) mod LaggedFibonacci.m st in
      let g' := {| LaggedFibonacci.__state :=
                     {| LaggedFibonacci.val :=
                          drop 1 (LaggedFibonacci.val st ++ [n]);
                        LaggedFibonacci.j := LaggedFibonacci.j st;
                        LaggedFibonacci.k := LaggedFibonacci.k st;
                        LaggedFibonacci.m := LaggedFibonacci.m st |};
                   LaggedFibonacci.__value := LaggedFibonacci.__value g |} in
      LaggedFibonacci.__next__ g =
        (g', if decide (drop 1 (LaggedFibonacci.val st ++ [n])
                        = LaggedFibonacci.__value g)
             then StopIteration else Yield (Scalar n)).
Proof.
  intros st Hj Hjk Hk Hm.
  destruct (py_index_from_end (LaggedFibonacci.val st) (LaggedFibonacci.k st))
    as (x & Hx & Hx'); [lia|].
  destruct (py_index_from_end (LaggedFibonacci.val st) (LaggedFibonacci.j st))
    as (y & Hy & Hy'); [lia|].
  exists x, y. split; [done|]. split; [done|].
  unfold LaggedFibonacci.__next__. cbv zeta. fold st.
  rewrite Hx, Hy. unfold py_mod. rewrite decide_False by done.
  by destruct (decide _).
Qed.

Lemma lf_drain_inv (j k m : Z) (v0 : list Z) fuel : ∀ g,
  0 < j → j < k → k ≤ Z.of_nat (length v0) → m ≠ 0 →
  LaggedFibonacci.j (LaggedFibonacci.__state g) = j →
  LaggedFibonacci.k (LaggedFibonacci.__state g) = k →
  LaggedFibonacci.m (LaggedFibonacci.__state g) = m →
  LaggedFibonacci.__value g = v0 →
  length (LaggedFibonacci.val (LaggedFibonacci.__state g)) = length v0 →
  ∃ xs e g',
    drain fuel g = (Scalar <$> xs, e, g')
    ∧ (e = Unfinished
       ∨ e = Exhausted
         ∧ g' = {| LaggedFibonacci.__state :=
                     {| LaggedFibonacci.val := v0; LaggedFibonacci.j := j;
                        LaggedFibonacci.k := k; LaggedFibonacci.m := m |};
                   LaggedFibonacci.__value := v0 |})
    ∧ length (LaggedFibonacci.val (LaggedFibonacci.__state g')) = length v0
    ∧ (0 < m → Forall (λ x, 0 ≤ x < m) xs).
Proof.
  induction fuel as [|fuel IH]; intros g Hj Hjk Hk Hm Ej Ek Em Ev El.
  - exists [], Unfinished, g. split; [reflexivity|]. split; [by left|].
    split; [exact El|]. intros _. constructor.
  - destruct (lf_next_ok g) as (x & y & _ & _ & E);
      [rewrite ?Ej, ?Ek, ?Em, ?El; first [lia | done]..|].
    cbv zeta in E. rewrite Ej, Ek, Em, Ev in E.
    rewrite drain_S. simpl next. rewrite E.
    set (w := drop 1 (LaggedFibonacci.val (LaggedFibonacci.__state g)
                      ++ [(x + y) mod m])) in *.
    assert (length w = length v0) as Hw.
    { unfold w. rewrite length_drop, length_app, El. simpl. lia. }
    destruct (decide (w = v0)) as [Hstop|Hgo].
    + exists [], Exhausted. eexists. split; [reflexivity|].
      split; [right; by rewrite Hstop|]. split; [done|]. by constructor.
    + match goal with
      | |- context [drain fuel ?g1] =>
          destruct (IH g1) as (xs & e & g' & Hd & He & Hl & Hr); try done
      end.
      rewrite Hd. exists ((x + y) mod m :: xs), e, g'.
      split; [done|]. split; [done|]. split; [done|].
      intros Hpos. constructor; [by apply Z.mod_pos_bound | by apply Hr].
Qed.

(** X9.  A LaggedFibonacci constructed with a modulus other than 0 never
    raises, however long it is iterated: the window keeps the length of
    the seed, every item is a scalar, and for [m > 0] every value is in
    [0 .. m - 1].  When it signals exhaustion the instance is again what
    the constructor returned, window included, so that iterating it
    once more yields the same sequence. *)
Theorem lf_drain_safe seed j k m g fuel :
  LaggedFibonacci.__init__ seed j k m = inr g →
  LaggedFibonacci.m (LaggedFibonacci.__state g) ≠ 0 →
  ∃ xs e g',
    drain fuel g = (Scalar <$> xs, e, g')
    ∧ (e = Unfinished ∨ e = Exhausted ∧ g' = g)
    ∧ length (LaggedFibonacci.val (LaggedFibonacci.__state g'))
      = length (LaggedFibonacci.val (LaggedFibonacci.__state g))
    ∧ (0 < LaggedFibonacci.m (LaggedFibonacci.__state g) →
       Forall (λ x, 0 ≤ x < LaggedFibonacci.m (LaggedFibonacci.__state g))
         xs).
Proof.
  intros Hinit Hm. unfold LaggedFibonacci.__init__ in Hinit.
  destruct seed as [| | |items]; try done.
  destruct (negb _); [done|]. destruct m as [|n| |]; try done.
  destruct (decide _) as [(Hj & Hjk & Hk)|]; [|done].
  simplify_eq. simpl in *.
  destruct (lf_drain_inv j k n (ints_of items) fuel
              {| LaggedFibonacci.__state :=
                   {| LaggedFibonacci.val := ints_of items;
                      LaggedFibonacci.j := j; LaggedFibonacci.k := k;
                      LaggedFibonacci.m := n |};
                 LaggedFibonacci.__value := ints_of items |})
    as (xs & e & g' & Hd & He & Hl & Hr); try done.
  by exists xs, e, g'.
Qed.

(** The generator of the driver, advanced twenty times. *)
Lemma lf_drain_safe_witness :
  ∃ xs e g',
    LaggedFibonacci.__init__ (PyList (PyInt <$> [1; 2; 3; 4; 6; 1; 4])) 1 6
      (PyInt 365) = inr g'.2
    ∧ drain 20 g'.2 = (Scalar <$> xs, e, g'.1)
    ∧ Forall (λ x, 0 ≤ x < 365) xs.
Proof.
  destruct (LaggedFibonacci.__init__
              (PyList (PyInt <$> [1; 2; 3; 4; 6; 1; 4])) 1 6 (PyInt 365))
    as [err|g] eqn:Hinit; [by vm_compute in Hinit|].
  assert (LaggedFibonacci.m (LaggedFibonacci.__state g) = 365) as Hm.
  { vm_compute in Hinit. by injection Hinit as <-. }
  destruct (lf_drain_safe _ _ _ _ g 20 Hinit ltac:(rewrite Hm; done))
    as (xs & e & g' & Hd & _ & _ & Hr).
  exists xs, e, (g', g). simpl. split; [done|]. split; [done|].
  rewrite Hm in Hr. by apply Hr.
Defined.

(** ** Acorn: construction *)

(** X10.  The constructor of Acorn raises [TypeError] for a seed that is
    not a list of integers, and for a list of integers [ValueError] when
    [M] is not an integer, [IndexError] when the list is empty (the
    comparison [seed[0] >= M] has nothing to read), [ValueError] when
    the first element is not below [M]; otherwise it returns an instance
    whose vector and seed are the list. *)
Theorem acorn_init_spec seed M :
  ((∀ ns, seed ≠ PyList (PyInt <$> ns)) →
   ∃ msg, Acorn.__init__ seed M = inl (TypeError msg))
  ∧ ∀ ns, seed = PyList (PyInt <$> ns) →
      ((∀ n, M ≠ PyInt n) →
       ∃ msg, Acorn.__init__ seed M = inl (ValueError msg))
      ∧ ∀ n, M = PyInt n →
          (ns = [] → Acorn.__init__ seed M = inl IndexError)
          ∧ ∀ s0 rest, ns = s0 :: rest →
              (n ≤ s0 → ∃ msg, Acorn.__init__ seed M = inl (ValueError msg))
              ∧ (s0 < n →
                 Acorn.__init__ seed M =
                   inr {| Acorn.state := {| Acorn.vals := ns; Acorn.M := n |};
                          Acorn.seed := ns;
                          Acorn.seen_numbers := [ns] |}).
Proof.
  split.
  - intros Hseed. destruct seed as [| | |items]; try by eexists.
    simpl. destruct (forallb isinstance_int items) eqn:Hall; [|by eexists].
    apply forallb_isinstance_int in Hall as [ns ->]. by destruct (Hseed ns).
  - intros ns ->. simpl.
    rewrite (proj2 (forallb_isinstance_int _)) by by exists ns.
    simpl. rewrite ints_of_fmap. split.
    + intros HM. destruct M as [|n| |]; try by eexists. by destruct (HM n).
    + intros n ->. split; [by intros ->|].
      intros s0 rest ->. simpl. split.
      * intros Hge. rewrite decide_True by done. by eexists.
      * intros Hlt. rewrite decide_False by lia. done.
Qed.

Lemma acorn_init_spec_witness :
  Acorn.__init__ (PyList []) (PyInt 5) = inl IndexError
  ∧ (∃ msg, Acorn.__init__ (PyList [PyInt 7]) (PyInt 5) = inl (ValueError msg))
  ∧ (∃ g, Acorn.__init__ (PyList (PyInt <$> [1; 5; 6; 4; 4; 5; 8; 9; 4]))
            (PyInt 12356) = inr g).
Proof.
  split; [|split].
  - exact (proj1 (proj2 (proj2 (acorn_init_spec (PyList []) (PyInt 5))
                           [] eq_refl) 5 eq_refl) eq_refl).
  - exact (proj1 (proj2 (proj2 (proj2 (acorn_init_spec (PyList [PyInt 7])
                                         (PyInt 5)) [7] eq_refl) 5 eq_refl)
                   7 [] eq_refl) ltac:(lia)).
  - eexists.
    exact (proj2 (proj2 (proj2 (proj2
             (acorn_init_spec
                (PyList (PyInt <$> [1; 5; 6; 4; 4; 5; 8; 9; 4])) (PyInt 12356))
             [1; 5; 6; 4; 4; 5; 8; 9; 4] eq_refl) 12356 eq_refl)
             1 [5; 6; 4; 4; 5; 8; 9; 4] eq_refl) ltac:(lia)).
Defined.

(** ** Acorn: the sequence *)

Lemma acorn_drain_inv (v0 : Z) (len : nat) (M : Z) (sd : list Z)
    (sn : list (list Z)) fuel : ∀ g,
  M ≠ 0 → Acorn.M (Acorn.state g) = M →
  Acorn.seed g = sd → Acorn.seen_numbers g = sn →
  length (Acorn.vals (Acorn.state g)) = len →
  Acorn.vals (Acorn.state g) !! 0%nat = Some v0 →
  ∃ vs e g',
    drain fuel g = (Vector <$> vs, e, g')
    ∧ (e = Unfinished ∨ e = Exhausted)
    ∧ Acorn.seed g' = sd ∧ Acorn.seen_numbers g' = sn
    ∧ Acorn.M (Acorn.state g') = M
    ∧ length (Acorn.vals (Acorn.state g')) = len
    ∧ Acorn.vals (Acorn.state g') !! 0%nat = Some v0
    ∧ Forall (λ v, length v = len ∧ v !! 0%nat = Some v0 ∧ v ≠ sd
                   ∧ (0 < M → Forall (λ x, 0 ≤ x < M) (drop 1 v))) vs.
Proof.
  induction fuel as [|fuel IH]; intros g HM EM Esd Esn El E0.
  - exists [], Unfinished, g. split; [reflexivity|]. split; [by left|].
    repeat (split; [done|]). constructor.
  - destruct (acorn_next_vector g) as (new & Hl & H0 & Hrec & E).
    { intros Hnil. by rewrite Hnil in E0. }
    { by rewrite EM. }
    rewrite drain_S. simpl next. rewrite E.
    destruct (decide (new = Acorn.seed g)) as [Hstop|Hgo].
    + exists [], Exhausted, g. split; [reflexivity|]. split; [by right|].
      repeat (split; [done|]). constructor.
    + match goal with
      | |- context [drain fuel ?g1] =>
          destruct (IH g1) as (vs & e & g' & Hd & He & Hs & Hn & Hm' & Hl' & H0' & Hall)
      end; simpl; try done; try congruence.
      rewrite Hd. exists (new :: vs), e, g'. split; [done|].
      repeat (split; [done|]). constructor; [|done].
      split; [congruence|]. split; [congruence|]. split; [congruence|].
      intros Hpos. apply Forall_lookup. intros i x Hx.
      rewrite lookup_drop in Hx.
      destruct (Hrec (1 + i)%nat) as (a & b & _ & _ & Hi).
      { apply lookup_lt_Some in Hx. lia. }
      rewrite Hi in Hx. injection Hx as <-. rewrite EM.
      by apply Z.mod_pos_bound.
Qed.

(** X11.  A constructed Acorn with a modulus other than 0 never raises,
    however long it is iterated.  Every item is a list as long as the
    seed whose first element is the first element of the seed and, for
    [M > 0], whose other elements are in [0 .. M - 1]; no item equals the
    seed.  The stored seed, the modulus and [seen_numbers] are never
    changed. *)
Theorem acorn_drain_safe seed M g fuel :
  Acorn.__init__ seed M = inr g →
  Acorn.M (Acorn.state g) ≠ 0 →
  ∃ vs e g' v0,
    drain fuel g = (Vector <$> vs, e, g')
    ∧ (e = Unfinished ∨ e = Exhausted)
    ∧ Acorn.seed g !! 0%nat = Some v0
    ∧ Acorn.seed g' = Acorn.seed g
    ∧ Acorn.seen_numbers g' = [Acorn.seed g]
    ∧ Acorn.M (Acorn.state g') = Acorn.M (Acorn.state g)
    ∧ Forall (λ v, length v = length (Acorn.seed g)
                   ∧ v !! 0%nat = Some v0 ∧ v ≠ Acorn.seed g
                   ∧ (0 < Acorn.M (Acorn.state g) →
                      Forall (λ x, 0 ≤ x < Acorn.M (Acorn.state g))
                        (drop 1 v))) vs.
Proof.
  intros Hinit HM. unfold Acorn.__init__ in Hinit.
  destruct seed as [| | |items]; try done.
  destruct (negb _); [done|]. destruct M as [|n| |]; try done.
  cbv zeta in Hinit.
  destruct (py_index (ints_of items) 0) as [|s0] eqn:Hidx; [done|].
  destruct (decide _); [done|]. simplify_eq. simpl in *.
  assert (ints_of items !! 0%nat = Some s0) as H0.
  { unfold py_index in Hidx. cbv zeta in Hidx.
    change (0 <? 0) with false in Hidx. cbv iota in Hidx.
    change (Z.to_nat 0) with 0%nat in Hidx.
    destruct (ints_of items !! 0%nat) as [x|]; [|done].
    by injection Hidx as ->. }
  destruct (acorn_drain_inv s0 (length (ints_of items)) n (ints_of items)
              [ints_of items] fuel
              {| Acorn.state := {| Acorn.vals := ints_of items; Acorn.M := n |};
                 Acorn.seed := ints_of items;
                 Acorn.seen_numbers := [ints_of items] |})
    as (vs & e & g' & Hd & He & Hs & Hn & Hm' & _ & _ & Hall); try done.
  by exists vs, e, g', s0.
Qed.

Lemma acorn_drain_safe_witness :
  ∃ g vs e g',
    Acorn.__init__ (PyList (PyInt <$> [1; 5; 6; 4; 4; 5; 8; 9; 4]))
      (PyInt 12356) = inr g
    ∧ drain 5 g = (Vector <$> vs, e, g')
    ∧ Forall (λ v, v !! 0%nat = Some 1) vs.
Proof.
  destruct (Acorn.__init__ (PyList (PyInt <$> [1; 5; 6; 4; 4; 5; 8; 9; 4]))
              (PyInt 12356)) as [err|g] eqn:Hinit; [by vm_compute in Hinit|].
  assert (Acorn.M (Acorn.state g) = 12356 ∧ Acorn.seed g !! 0%nat = Some 1)
    as [HM Hs].
  { vm_compute in Hinit. by injection Hinit as <-. }
  destruct (acorn_drain_safe _ _ g 5 Hinit ltac:(rewrite HM; done))
    as (vs & e & g' & v0 & Hd & _ & H0 & _ & _ & _ & Hall).
  rewrite Hs in H0. injection H0 as <-.
  exists g, vs, e, g'. split; [done|]. split; [done|].
  eapply Forall_impl; [exact Hall|]. by intros v (_ & ? & _).
Defined.
